(** * OGRFeature: a schema-bound attribute record (ogr/ogrfeature.cpp)

    A shallow embedding of the [OGRFeature] class: its field storage, the
    type-coercing accessors, [Clone] and [Equal].  Objects live in a heap
    indexed by addresses, so that pointer identity, which [Equal] and
    [Clone] depend on, can be stated.  The C library routines the class
    calls ([atoi], [atof], [sprintf]) and the CPL helpers are modelled at
    the start of the file.

    Strings are held by value, so [CPLFree] has nothing to do here, and
    [GetFieldAsString] answers with the characters its result points to
    at the time of the call.  The destructor and [DumpReadable], about
    which nothing is stated below, are left out. *)

From Stdlib Require Import ZArith String Ascii List Bool Lia.
From Stdlib Require Import DecimalString DecimalPos.
From Stdlib Require Import Floats.SpecFloat.
From stdpp Require Import base option list gmap.

Local Open Scope Z_scope.

(** ** Outcomes of a C++ call *)

(** What makes a call leave defined behaviour. *)
Inductive fault : Set :=
  | NullDereference      (* a method called through, or a read of, a NULL pointer *)
  | AssertionFailure     (* CPLAssert( poFDefn != NULL ) does not hold *)
  | DanglingPointer      (* an address that holds no live object *)
  | OutOfBounds          (* an array element outside the allocated block *)
  | InactiveMember       (* a union member read while another one is stored *)
  | Unrepresentable.     (* a conversion whose result does not fit the target type *)

Inductive outcome (A : Type) : Type :=
  | Done (a : A)
  | Undefined (why : fault).

Arguments Done {A} a.
Arguments Undefined {A} why.

#[global] Instance outcome_ret : MRet outcome := fun A a => Done a.

#[global] Instance outcome_bind : MBind outcome := fun A B k c =>
  match c with
  | Done a => k a
  | Undefined w => Undefined w
  end.

Definition from_option {A : Type} (w : fault) (o : option A) : outcome A :=
  match o with
  | Some a => Done a
  | None => Undefined w
  end.

(** ** C data *)

(** [int] is 32 bits wide. *)
Definition INT_MIN : Z := - 2 ^ 31.
Definition INT_MAX : Z := 2 ^ 31 - 1.

Definition in_int (n : Z) : bool := (INT_MIN <=? n) && (n <=? INT_MAX).

(** A [char *]: NULL, or the characters in front of the terminating NUL. *)
Inductive cstring : Set :=
  | CNull
  | CStr (s : string).

(** ** libc: <ctype.h>, atoi and the [%d] conversion *)

Module Libc.

Definition isspace (c : ascii) : bool :=
  let n := Z.of_nat (nat_of_ascii c) in
  (n =? 32) || ((9 <=? n) && (n <=? 13)).

Definition isdigit (c : ascii) : bool :=
  let n := Z.of_nat (nat_of_ascii c) in
  (48 <=? n) && (n <=? 57).

Definition digit_value (c : ascii) : Z := Z.of_nat (nat_of_ascii c) - 48.

Fixpoint skip_space (s : string) : string :=
  match s with
  | String c r => if isspace c then skip_space r else s
  | EmptyString => s
  end.

(** The digits at the start of [s], accumulated onto [acc], in base ten. *)
Fixpoint leading_digits (acc : Z) (s : string) : Z :=
  match s with
  | String c r =>
      if isdigit c then leading_digits (10 * acc + digit_value c) r else acc
  | EmptyString => acc
  end.

(** An optional sign at the start of [s]: whether it is a minus, and what
    follows it. *)
Definition split_sign (s : string) : bool * string :=
  match s with
  | String a r =>
      if Ascii.eqb a "-" then (true, r)
      else if Ascii.eqb a "+" then (false, r)
      else (false, s)
  | EmptyString => (false, s)
  end.

(** The subject sequence of [strtol( s, NULL, 10 )]: white space, an
    optional sign, decimal digits.  No digits give 0. *)
Definition leading_integer (s : string) : Z :=
  let '(neg, r) := split_sign (skip_space s) in
  cond_Zopp neg (leading_digits 0 r).

(** [atoi]: the leading integer; the C standard leaves the call undefined
    when that value is not an [int]. *)
Definition atoi (s : string) : outcome Z :=
  let v := leading_integer s in
  if in_int v then Done v else Undefined Unrepresentable.

(** [sprintf( buf, "%d", n )]. *)
Definition sprintf_d (n : Z) : string := NilZero.string_of_int (Z.to_int n).

End Libc.

(** ** [double]: IEEE 754 binary64 *)

Module Double.

Definition double : Set := spec_float.

Definition prec : Z := 53.
Definition emax : Z := 1024.

Definition zero : double := S754_zero false.

(** The conversion [(double) n] of an [int]; 32 bits fit the mantissa, so
    nothing is rounded. *)
Definition of_int (n : Z) : double := binary_normalize prec emax n 0 false.

(** The integer part of [m * 2^e]. *)
Definition integer_part (m : positive) (e : Z) : Z :=
  match e with
  | Zneg k => Z.shiftr (Zpos m) (Zpos k)
  | _ => Z.shiftl (Zpos m) e
  end.

(** The conversion [(int) d]: the fractional part is discarded; undefined
    when the integer part is not an [int], and for infinities and NaN. *)
Definition to_int (d : double) : outcome Z :=
  match d with
  | S754_zero _ => Done 0
  | S754_finite s m e =>
      let v := cond_Zopp s (integer_part m e) in
      if in_int v then Done v else Undefined Unrepresentable
  | S754_infinity _ | S754_nan => Undefined Unrepresentable
  end.

(** *** strtod *)

Definition tolower (c : ascii) : ascii :=
  let n := nat_of_ascii c in
  if (65 <=? n)%nat && (n <=? 90)%nat then ascii_of_nat (n + 32) else c.

(** Whether [s] starts with the lower-case word [w], whatever its case. *)
Fixpoint starts_with (w s : string) : bool :=
  match w, s with
  | EmptyString, _ => true
  | String a w', String c s' =>
      if Ascii.eqb a (tolower c) then starts_with w' s' else false
  | String _ _, EmptyString => false
  end.

Definition xdigit_value (c : ascii) : option Z :=
  let n := Z.of_nat (nat_of_ascii (tolower c)) in
  if (48 <=? n) && (n <=? 57) then Some (n - 48)
  else if (97 <=? n) && (n <=? 102) then Some (n - 87)
  else None.

Definition digit_in (base : Z) (c : ascii) : option Z :=
  if base =? 16 then xdigit_value c
  else if Libc.isdigit c then Some (Libc.digit_value c) else None.

(** The digits at the start of [s]: their value on top of [acc], how many
    there are on top of [n], and what follows them. *)
Fixpoint span_digits (base acc n : Z) (s : string) : Z * Z * string :=
  match s with
  | String c r =>
      match digit_in base c with
      | Some v => span_digits base (base * acc + v) (n + 1) r
      | None => (acc, n, s)
      end
  | EmptyString => (acc, n, s)
  end.

(** Digits, optionally a point and more digits: the digits read as one
    integer, the number of all digits, and the number after the point. *)
Definition span_mantissa (base : Z) (s : string) : Z * Z * Z :=
  let '(ip, ni, r) := span_digits base 0 0 s in
  match r with
  | String a r' =>
      if Ascii.eqb a "." then
        let '(m, nf, _) := span_digits base ip 0 r' in (m, ni + nf, nf)
      else (ip, ni, 0)
  | EmptyString => (ip, ni, 0)
  end.

Definition after_mantissa (base : Z) (s : string) : string :=
  let '(_, _, r) := span_digits base 0 0 s in
  match r with
  | String a r' =>
      if Ascii.eqb a "." then let '(_, _, r'') := span_digits base 0 0 r' in r''
      else r
  | EmptyString => r
  end.

(** An exponent part introduced by the letter [mark]; 0 when there is
    none, or when no digit follows the letter and its sign. *)
Definition span_exponent (mark : ascii) (s : string) : Z :=
  match s with
  | String c r =>
      if Ascii.eqb (tolower c) mark then
        let '(neg, r') := Libc.split_sign r in
        let '(v, n, _) := span_digits 10 0 0 r' in
        if n =? 0 then 0 else cond_Zopp neg v
      else 0
  | EmptyString => 0
  end.

(** [n * 10^e] for [n > 0], rounded to the nearest double, ties to even. *)
Definition of_decimal (s : bool) (n e : Z) : double :=
  match n with
  | Zpos p =>
      match e with
      | Zneg k =>
          let '(q, e', l) := SFdiv_core_binary prec emax n 0 (10 ^ Zpos k) 0 in
          binary_round_aux prec emax s q e' l
      | _ => binary_round prec emax s (p * Z.to_pos (10 ^ e)) 0
      end
  | _ => S754_zero s
  end.

(** [n * 2^e], rounded likewise. *)
Definition of_binary (s : bool) (n e : Z) : double :=
  match n with
  | Zpos p => binary_round prec emax s p e
  | _ => S754_zero s
  end.

(** What follows the sign in the subject sequence of [strtod]. *)
Definition unsigned_value (s : bool) (r : string) : double :=
  if starts_with "inf" r then S754_infinity s
  else if starts_with "nan" r then S754_nan
  else
    let hex :=
      match r with
      | String a (String x t) =>
          if Ascii.eqb a "0" && Ascii.eqb (tolower x) "x" then
            let '(m, n, nf) := span_mantissa 16 t in
            if 0 <? n
            then Some (of_binary s m (span_exponent "p" (after_mantissa 16 t) - 4 * nf))
            else None
          else None
      | _ => None
      end in
    match hex with
    | Some d => d
    | None =>
        let '(m, n, nf) := span_mantissa 10 r in
        if 0 <? n
        then of_decimal s m (span_exponent "e" (after_mantissa 10 r) - nf)
        else zero
    end.

(** [strtod( s, NULL )]: white space, an optional sign, then a decimal or
    hexadecimal floating constant, an infinity or a NaN.  When nothing of
    the kind starts the string no conversion is made and the result is
    zero. *)
Definition strtod (s : string) : double :=
  let '(neg, r) := Libc.split_sign (Libc.skip_space s) in
  unsigned_value neg r.

Definition atof (s : string) : double := strtod s.

(** *** The [%g] conversion *)

Definition decimal (n : Z) : string := NilZero.string_of_int (Z.to_int n).

Definition decimal_length (n : Z) : Z := Z.of_nat (String.length (decimal n)).

(** [num / den] scaled by [10^k], as a fraction. *)
Definition scale10 (num den k : Z) : Z * Z :=
  match k with
  | Zneg j => (num, den * 10 ^ Zpos j)
  | _ => (num * 10 ^ k, den)
  end.

(** The decimal exponent of [num / den]: the [x] with
    [10^x <= num / den < 10^(x+1)]. *)
Definition decimal_exponent (num den : Z) : Z :=
  let x := decimal_length num - decimal_length den in
  let '(n, d) := scale10 num den (- x) in
  if d <=? n then x else x - 1.

(** [num / den] rounded to an integer, ties to even. *)
Definition round_half_even (num den : Z) : Z :=
  let q := num / den in
  match 2 * (num mod den) ?= den with
  | Lt => q
  | Gt => q + 1
  | Eq => if Z.even q then q else q + 1
  end.

(** The six significant digits of [num / den], as an integer of six
    digits, and the decimal exponent of the rounded value. *)
Definition significant_digits (num den : Z) : Z * Z :=
  let x := decimal_exponent num den in
  let '(n, d) := scale10 num den (5 - x) in
  let m := round_half_even n d in
  if m =? 1000000 then (100000, x + 1) else (m, x).

Fixpoint strip_zeros (s : string) : string :=
  match s with
  | String c r =>
      match strip_zeros r with
      | EmptyString => if Ascii.eqb c "0" then EmptyString else String c EmptyString
      | r' => String c r'
      end
  | EmptyString => EmptyString
  end.

Fixpoint zeros (n : nat) : string :=
  match n with
  | O => EmptyString
  | S k => String "0" (zeros k)
  end.

Definition with_point (int_part frac : string) : string :=
  match frac with
  | EmptyString => int_part
  | _ => (int_part ++ "." ++ frac)%string
  end.

(** The magnitude [m * 2^e] in the style of [%g] with its default precision
    of six. *)
Definition format_g (m : positive) (e : Z) : string :=
  let '(num, den) :=
    match e with
    | Zneg k => (Zpos m, 2 ^ Zpos k)
    | _ => (Zpos m * 2 ^ e, 1)
    end in
  let '(digits, x) := significant_digits num den in
  let ds := decimal digits in
  if (x <? -4) || (6 <=? x) then
    let mark : string := if x <? 0 then "e-"%string else "e+"%string in
    let pad : string := if Z.abs x <? 10 then "0"%string else EmptyString in
    let mant := with_point (String.substring 0 1 ds) (strip_zeros (String.substring 1 5 ds)) in
    (mant ++ mark ++ pad ++ decimal (Z.abs x))%string
  else if x <? 0 then
    let lead := zeros (Z.to_nat (- x - 1)) in
    ("0." ++ lead ++ strip_zeros ds)%string
  else
    let k := Z.to_nat (x + 1) in
    with_point (String.substring 0 k ds) (strip_zeros (String.substring k (6 - k) ds)).

(** [sprintf( buf, "%g", d )]. *)
Definition sprintf_g (d : double) : string :=
  match d with
  | S754_zero s => (if s then "-0" else "0")%string
  | S754_infinity s => (if s then "-inf" else "inf")%string
  | S754_nan => "nan"%string
  | S754_finite s m e =>
      let sign : string := if s then "-"%string else EmptyString in (sign ++ format_g m e)%string
  end.

End Double.

(** ** Declarations of ogr_core.h, ogr_feature.h and cpl_conv.h *)

Definition loc : Set := positive.

Definition OGRBoolean : Set := bool.
Definition TRUE : OGRBoolean := true.
Definition FALSE : OGRBoolean := false.

Definition OGRErr : Set := Z.
Definition OGRERR_NONE : OGRErr := 0.

(** "OGRNullFID (-1) indicating that the feature id is unknown". *)
Definition OGRNullFID : Z := -1.

(** Modelled from the spec: the enumeration of field kinds, which the
    header declares.  Integer, Real and String are the kinds the class
    handles; the list kinds, the wide strings and the binary kind are the
    ones it leaves alone. *)
Inductive OGRFieldType : Set :=
  | OFTInteger
  | OFTIntegerList
  | OFTReal
  | OFTRealList
  | OFTString
  | OFTStringList
  | OFTWideString
  | OFTWideStringList
  | OFTBinary.

(** The enumerators as the integers [==] compares. *)
Definition enumerator (t : OGRFieldType) : Z :=
  match t with
  | OFTInteger => 0
  | OFTIntegerList => 1
  | OFTReal => 2
  | OFTRealList => 3
  | OFTString => 4
  | OFTStringList => 5
  | OFTWideString => 6
  | OFTWideStringList => 7
  | OFTBinary => 8
  end.

Definition same_type (a b : OGRFieldType) : bool := enumerator a =? enumerator b.

Infix "==" := same_type (at level 70, no associativity).

(** Modelled from the spec: a field descriptor, its name and its kind. *)
Record OGRFieldDefn : Set := {
  GetNameRef : string;
  GetType : OGRFieldType
}.

(** Modelled from the spec: the schema, an ordered sequence of field
    descriptors shared by reference counting. *)
Record OGRFeatureDefn : Set := {
  nRefCount : Z;
  GetName : string;
  papoFieldDefn : list OGRFieldDefn
}.

(** Modelled from the spec: the field count of the schema. *)
Definition GetFieldCount (d : OGRFeatureDefn) : Z :=
  Z.of_nat (length (papoFieldDefn d)).

(** Modelled from the spec: the descriptor at an index; outside
    [0 .. GetFieldCount()-1] there is none and the result is NULL, which
    the accessors assert against. *)
Definition GetFieldDefn (d : OGRFeatureDefn) (iField : Z) : option OGRFieldDefn :=
  if (0 <=? iField) && (iField <? GetFieldCount d)
  then papoFieldDefn d !! Z.to_nat iField
  else None.

(** Modelled from the spec: one more holder of the schema. *)
Definition Reference (d : OGRFeatureDefn) : OGRFeatureDefn :=
  {| nRefCount := nRefCount d + 1;
     GetName := GetName d;
     papoFieldDefn := papoFieldDefn d |}.

(** The union [OGRField].  It carries no tag in memory; here the member
    last stored is recorded, so that a read of any other member is seen.
    [Zeroed] is the slot as [CPLCalloc] hands it out: every member reads
    as zero, the pointer as NULL. *)
Module OGRField.

Inductive t : Set :=
  | Zeroed
  | Integer (n : Z)
  | Real (d : Double.double)
  | String (s : cstring).

Definition read_Integer (u : t) : outcome Z :=
  match u with
  | Zeroed => Done 0
  | Integer n => Done n
  | _ => Undefined InactiveMember
  end.

Definition read_Real (u : t) : outcome Double.double :=
  match u with
  | Zeroed => Done Double.zero
  | Real d => Done d
  | _ => Undefined InactiveMember
  end.

Definition read_String (u : t) : outcome cstring :=
  match u with
  | Zeroed => Done CNull
  | String s => Done s
  | _ => Undefined InactiveMember
  end.

End OGRField.

(** Modelled from the spec: [CPLStrdup] of cpl_conv.h, which gives the
    record a copy of its own of a string.  CPL copies a NULL argument as
    the empty string, so the result is never NULL. *)
Definition CPLStrdup (s : cstring) : cstring :=
  match s with
  | CNull => CStr EmptyString
  | CStr c => CStr c
  end.

(** The data members of the class. *)
Record OGRFeature : Set := {
  poDefn : loc;
  nFID : Z;
  poGeometry : option loc;
  pauFields : list OGRField.t
}.

(** Modelled from the spec: what the class needs of a geometry, namely
    [OGRGeometry::clone] and [OGRGeometry::Equal], the latter handed the
    object its argument points to, or nothing for a NULL argument. *)
Class OGRGeometry (G : Type) := {
  OGRGeometry_clone : G -> G;
  OGRGeometry_Equal : G -> option G -> OGRBoolean
}.

(** Modelled from the spec: a duplicate compares equal to its original. *)
Class OGRGeometryLaws (G : Type) `{OGRGeometry G} : Prop := {
  clone_Equal : forall g : G, OGRGeometry_Equal g (Some (OGRGeometry_clone g)) = TRUE
}.

(** The objects alive at a time, by address. *)
Record heap (G : Type) : Type := {
  defns : gmap loc OGRFeatureDefn;
  geoms : gmap loc G;
  feats : gmap loc OGRFeature
}.

Arguments defns {G} h.
Arguments geoms {G} h.
Arguments feats {G} h.
Arguments Build_heap {G} defns geoms feats.

(** ** The methods of OGRFeature *)

Section Methods.

Context {G : Type} `{OGRGeometry G}.

Implicit Types (h : heap G) (this : loc) (iField : Z).

(** The object a pointer to a live feature leads to. *)
Definition feature_at h (p : loc) : outcome OGRFeature :=
  from_option DanglingPointer (feats h !! p).

Definition defn_at h (p : loc) : outcome OGRFeatureDefn :=
  from_option DanglingPointer (defns h !! p).

Definition geometry_at h (p : loc) : outcome G :=
  from_option DanglingPointer (geoms h !! p).

(** [poDefn->GetFieldDefn( iField )], [CPLAssert( poFDefn != NULL )] and
    [poFDefn->GetType()], with which every accessor starts. *)
Definition field_type h (f : OGRFeature) iField : outcome OGRFieldType :=
  d ← defn_at h (poDefn f);
  poFDefn ← from_option AssertionFailure (GetFieldDefn d iField);
  mret (GetType poFDefn).

(** [pauFields[iField]] as an rvalue. *)
Definition field_slot (f : OGRFeature) iField : outcome OGRField.t :=
  from_option OutOfBounds (pauFields f !! Z.to_nat iField).

(** The heap once the object at [this] has become [f]. *)
Definition with_feature h this (f : OGRFeature) : heap G :=
  {| defns := defns h; geoms := geoms h; feats := <[this := f]> (feats h) |}.

Definition with_slot (f : OGRFeature) iField (u : OGRField.t) : OGRFeature :=
  {| poDefn := poDefn f;
     nFID := nFID f;
     poGeometry := poGeometry f;
     pauFields := <[Z.to_nat iField := u]> (pauFields f) |}.

(** [pauFields[iField]] assigned through one of its members. *)
Definition assign_slot h this (f : OGRFeature) iField (u : OGRField.t) : outcome (heap G) :=
  _ ← field_slot f iField;
  mret (with_feature h this (with_slot f iField u)).

(** [OGRFeature::OGRFeature( poDefnIn )], run on newly allocated storage. *)
Definition new_OGRFeature (poDefnIn : loc) h : outcome (loc * heap G) :=
  d ← defn_at h poDefnIn;
  let d' := Reference d in
  let this := fresh (dom (feats h)) in
  mret (this,
        {| defns := <[poDefnIn := d']> (defns h);
           geoms := geoms h;
           feats := <[this :=
             {| poDefn := poDefnIn;
                nFID := OGRNullFID;
                poGeometry := None;
                pauFields := replicate (Z.to_nat (GetFieldCount d')) OGRField.Zeroed |}]>
             (feats h) |}).

(** [if( poGeometry != NULL ) delete poGeometry;] *)
Definition delete_geometry h (f : OGRFeature) : outcome (gmap loc G) :=
  match poGeometry f with
  | Some p => _ ← geometry_at h p; mret (delete p (geoms h))
  | None => mret (geoms h)
  end.

Definition with_geometry (f : OGRFeature) (p : option loc) : OGRFeature :=
  {| poDefn := poDefn f; nFID := nFID f; poGeometry := p; pauFields := pauFields f |}.

Definition SetGeometryDirectly this (poGeomIn : option loc) h : outcome (OGRErr * heap G) :=
  f ← feature_at h this;
  gs ← delete_geometry h f;
  mret (OGRERR_NONE,
        {| defns := defns h;
           geoms := gs;
           feats := <[this := with_geometry f poGeomIn]> (feats h) |}).

Definition SetGeometry this (poGeomIn : option loc) h : outcome (OGRErr * heap G) :=
  f ← feature_at h this;
  gs ← delete_geometry h f;
  p ← from_option NullDereference poGeomIn;
  g ← from_option DanglingPointer (gs !! p);
  let copy := fresh (dom gs) in
  mret (OGRERR_NONE,
        {| defns := defns h;
           geoms := <[copy := OGRGeometry_clone g]> gs;
           feats := <[this := with_geometry f (Some copy)]> (feats h) |}).

Definition GetGeometryRef this h : outcome (option loc) :=
  f ← feature_at h this; mret (poGeometry f).

Definition GetDefnRef this h : outcome loc :=
  f ← feature_at h this; mret (poDefn f).

Definition GetFID this h : outcome Z :=
  f ← feature_at h this; mret (nFID f).

Definition SetFID this (nFIDIn : Z) h : outcome (OGRErr * heap G) :=
  f ← feature_at h this;
  mret (OGRERR_NONE,
        with_feature h this
          {| poDefn := poDefn f;
             nFID := nFIDIn;
             poGeometry := poGeometry f;
             pauFields := pauFields f |}).

Definition GetFieldAsInteger this iField h : outcome Z :=
  f ← feature_at h this;
  ty ← field_type h f iField;
  if ty == OFTInteger then
    u ← field_slot f iField; OGRField.read_Integer u
  else if ty == OFTReal then
    u ← field_slot f iField; d ← OGRField.read_Real u; Double.to_int d
  else if ty == OFTString then
    u ← field_slot f iField;
    s ← OGRField.read_String u;
    match s with
    | CNull => mret 0
    | CStr c => Libc.atoi c
    end
  else mret 0.

Definition GetFieldAsDouble this iField h : outcome Double.double :=
  f ← feature_at h this;
  ty ← field_type h f iField;
  if ty == OFTReal then
    u ← field_slot f iField; OGRField.read_Real u
  else if ty == OFTInteger then
    u ← field_slot f iField; n ← OGRField.read_Integer u; mret (Double.of_int n)
  else if ty == OFTString then
    u ← field_slot f iField;
    s ← OGRField.read_String u;
    match s with
    | CNull => mret (Double.of_int 0)
    | CStr c => mret (Double.atof c)
    end
  else mret Double.zero.

(** The characters the returned pointer leads to when the call returns;
    for Integer and Real fields they sit in the static [szTempBuffer]. *)
Definition GetFieldAsString this iField h : outcome cstring :=
  f ← feature_at h this;
  ty ← field_type h f iField;
  if ty == OFTString then
    u ← field_slot f iField;
    s ← OGRField.read_String u;
    match s with
    | CNull => mret (CStr EmptyString)
    | CStr c => mret (CStr c)
    end
  else if ty == OFTInteger then
    u ← field_slot f iField; n ← OGRField.read_Integer u; mret (CStr (Libc.sprintf_d n))
  else if ty == OFTReal then
    u ← field_slot f iField; d ← OGRField.read_Real u; mret (CStr (Double.sprintf_g d))
  else mret (CStr EmptyString).

(** [CPLFree( pauFields[iField].String ); pauFields[iField].String = CPLStrdup( s );] *)
Definition replace_string h this (f : OGRFeature) iField (s : cstring) : outcome (heap G) :=
  u ← field_slot f iField;
  _ ← OGRField.read_String u;
  assign_slot h this f iField (OGRField.String (CPLStrdup s)).

Definition SetField_int this iField (nValue : Z) h : outcome (heap G) :=
  f ← feature_at h this;
  ty ← field_type h f iField;
  if ty == OFTInteger then
    assign_slot h this f iField (OGRField.Integer nValue)
  else if ty == OFTReal then
    assign_slot h this f iField (OGRField.Real (Double.of_int nValue))
  else if ty == OFTString then
    replace_string h this f iField (CStr (Libc.sprintf_d nValue))
  else mret h.

Definition SetField_double this iField (dfValue : Double.double) h : outcome (heap G) :=
  f ← feature_at h this;
  ty ← field_type h f iField;
  if ty == OFTReal then
    assign_slot h this f iField (OGRField.Real dfValue)
  else if ty == OFTInteger then
    n ← Double.to_int dfValue;
    assign_slot h this f iField (OGRField.Integer n)
  else if ty == OFTString then
    replace_string h this f iField (CStr (Double.sprintf_g dfValue))
  else mret h.

Definition SetField_string this iField (pszValue : cstring) h : outcome (heap G) :=
  f ← feature_at h this;
  ty ← field_type h f iField;
  if ty == OFTString then
    replace_string h this f iField pszValue
  else if ty == OFTInteger then
    match pszValue with
    | CNull => Undefined NullDereference
    | CStr c => n ← Libc.atoi c; assign_slot h this f iField (OGRField.Integer n)
    end
  else if ty == OFTReal then
    match pszValue with
    | CNull => Undefined NullDereference
    | CStr c => assign_slot h this f iField (OGRField.Real (Double.atof c))
    end
  else mret h.

(** [SetField( int, OGRField * )], handed the union [puValue] points to. *)
Definition SetField_raw this iField (puValue : OGRField.t) h : outcome (heap G) :=
  f ← feature_at h this;
  ty ← field_type h f iField;
  if ty == OFTInteger then
    n ← OGRField.read_Integer puValue;
    assign_slot h this f iField (OGRField.Integer n)
  else if ty == OFTReal then
    d ← OGRField.read_Real puValue;
    assign_slot h this f iField (OGRField.Real d)
  else if ty == OFTString then
    s ← OGRField.read_String puValue;
    replace_string h this f iField s
  else mret h.

(** The loop of [Clone], about to run its iteration [i] with [n] more to
    go: [poNew->SetField( i, pauFields + i )]. *)
Fixpoint Clone_fields this (poNew : loc) (i : Z) (n : nat) h : outcome (heap G) :=
  match n with
  | O => mret h
  | S n' =>
      f ← feature_at h this;
      u ← field_slot f i;
      h' ← SetField_raw poNew i u h;
      Clone_fields this poNew (i + 1) n' h'
  end.

Definition Clone this h : outcome (loc * heap G) :=
  f ← feature_at h this;
  '(poNew, h1) ← new_OGRFeature (poDefn f) h;
  '(_, h2) ← SetGeometry poNew (poGeometry f) h1;
  d ← defn_at h2 (poDefn f);
  h3 ← Clone_fields this poNew 0 (Z.to_nat (GetFieldCount d)) h2;
  mret (poNew, h3).

Definition Equal this (poFeature : loc) h : outcome OGRBoolean :=
  if decide (poFeature = this) then mret TRUE
  else
    a ← feature_at h this;
    b ← feature_at h poFeature;
    if negb (nFID a =? nFID b) then mret FALSE
    else if negb (poDefn a =? poDefn b)%positive then mret FALSE
    else
      match poGeometry a with
      | Some p =>
          g ← geometry_at h p;
          other ← match poGeometry b with
                  | Some q => o ← geometry_at h q; mret (Some o)
                  | None => mret None
                  end;
          if negb (OGRGeometry_Equal g other) then mret FALSE else mret TRUE
      | None => mret TRUE
      end.

End Methods.

(** ** A geometry and the records of the scenario *)

(** A point, the simplest geometry: duplicated field by field, equal to
    another point with the same coordinates and to nothing else. *)
Record OGRPoint : Set := { getX : Z; getY : Z }.

#[global] Instance OGRPoint_geometry : OGRGeometry OGRPoint := {|
  OGRGeometry_clone p := {| getX := getX p; getY := getY p |};
  OGRGeometry_Equal p other :=
    match other with
    | Some q => (getX p =? getX q) && (getY p =? getY q)
    | None => FALSE
    end
|}.

(** Schema = [("NAME":String), ("COUNT":Integer), ("AREA":Real)]. *)
Definition lot_defn : OGRFeatureDefn :=
  {| nRefCount := 0;
     GetName := "lots";
     papoFieldDefn :=
       [ {| GetNameRef := "NAME"; GetType := OFTString |};
         {| GetNameRef := "COUNT"; GetType := OFTInteger |};
         {| GetNameRef := "AREA"; GetType := OFTReal |} ] |}.

(** The schema at address 1, and nothing else. *)
Definition lot_heap : heap OGRPoint :=
  {| defns := {[ 1%positive := lot_defn ]}; geoms := ∅; feats := ∅ |}.

(** f1 with NAME="Lot A", COUNT=5, AREA=12.5, identifier=100. *)
Definition build_f1 : outcome (loc * heap OGRPoint) :=
  '(f1, h) ← new_OGRFeature 1%positive lot_heap;
  h ← SetField_string f1 0 (CStr "Lot A") h;
  h ← SetField_int f1 1 5 h;
  h ← SetField_double f1 2 (Double.atof "12.5") h;
  '(_, h) ← SetFID f1 100 h;
  mret (f1, h).

(** f1 given the point (3, 4) as its shape. *)
Definition build_f1_with_shape : outcome (loc * heap OGRPoint) :=
  '(f1, h) ← build_f1;
  let p := fresh (dom (geoms h)) in
  let h := {| defns := defns h;
              geoms := <[p := {| getX := 3; getY := 4 |}]> (geoms h);
              feats := feats h |} in
  '(_, h) ← SetGeometryDirectly f1 (Some p) h;
  mret (f1, h).

(** A schema with one field of a kind the class leaves alone. *)
Definition codes_defn : OGRFeatureDefn :=
  {| nRefCount := 1;
     GetName := "codes";
     papoFieldDefn := [ {| GetNameRef := "CODES"; GetType := OFTIntegerList |} ] |}.

Definition lot_a : OGRFeature :=
  {| poDefn := 1%positive;
     nFID := 100;
     poGeometry := None;
     pauFields :=
       [ OGRField.String (CStr "Lot A");
         OGRField.Integer 5;
         OGRField.Real (Double.atof "12.5") ] |}.

(** Other field values than [lot_a], the same identifier, no shape. *)
Definition lot_b : OGRFeature :=
  {| poDefn := 1%positive;
     nFID := 100;
     poGeometry := None;
     pauFields :=
       [ OGRField.Zeroed;
         OGRField.Integer 7;
         OGRField.Zeroed ] |}.

(** [lot_a] with the point at address 1 as its shape. *)
Definition lot_c : OGRFeature :=
  {| poDefn := 1%positive;
     nFID := 100;
     poGeometry := Some 1%positive;
     pauFields := pauFields lot_a |}.

(** [lot_a] under another identifier. *)
Definition lot_d : OGRFeature :=
  {| poDefn := 1%positive;
     nFID := 101;
     poGeometry := None;
     pauFields := pauFields lot_a |}.

(** A record whose NAME starts with a number, and whose AREA is negative. *)
Definition lot_f : OGRFeature :=
  {| poDefn := 1%positive;
     nFID := 102;
     poGeometry := None;
     pauFields :=
       [ OGRField.String (CStr "-17 Mill Lane");
         OGRField.Zeroed;
         OGRField.Real (Double.atof "-2.75") ] |}.

Definition codes_e : OGRFeature :=
  {| poDefn := 2%positive;
     nFID := OGRNullFID;
     poGeometry := None;
     pauFields := [ OGRField.Zeroed ] |}.

(** Six records, two schemas and one point. *)
Definition lots : heap OGRPoint :=
  {| defns := {[ 1%positive :=
                   Reference (Reference (Reference (Reference (Reference lot_defn))));
                 2%positive := codes_defn ]};
     geoms := {[ 1%positive := {| getX := 3; getY := 4 |} ]};
     feats := {[ 1%positive := lot_a;
                 2%positive := lot_b;
                 3%positive := lot_c;
                 4%positive := lot_d;
                 5%positive := codes_e;
                 6%positive := lot_f ]} |}.

(** [lots], and a second point that no record owns. *)
Definition lots_with_spare : heap OGRPoint :=
  {| defns := defns lots;
     geoms := <[ 2%positive := {| getX := 5; getY := 6 |} ]> (geoms lots);
     feats := feats lots |}.

(** ** Invariants, and the words of the specification *)

(** The member a slot holds is the one its declared kind names; a slot
    still zeroed passes for any kind, and the kinds the class leaves alone
    constrain nothing. *)
Definition slot_matches (ty : OGRFieldType) (u : OGRField.t) : bool :=
  match u, ty with
  | OGRField.Zeroed, _ => true
  | OGRField.Integer _, OFTInteger => true
  | OGRField.Real _, OFTReal => true
  | OGRField.String _, OFTString => true
  | _, (OFTInteger | OFTReal | OFTString) => false
  | _, _ => true
  end.

(** In [h], the live record at [this] is [f], its schema declares field
    [iField] with kind [ty], and the slot of that field holds [u]. *)
Definition field_of {G : Type} (h : heap G) (this : loc) (iField : Z)
    (f : OGRFeature) (ty : OGRFieldType) (u : OGRField.t) : Prop :=
  feats h !! this = Some f /\
  (exists d fd,
     defns h !! poDefn f = Some d /\
     GetFieldDefn d iField = Some fd /\
     GetType fd = ty) /\
  pauFields f !! Z.to_nat iField = Some u /\
  slot_matches ty u = true.

(** The heap [SetField] leaves when it stores [u'] in the slot. *)
Definition stored {G : Type} (h : heap G) (this : loc) (f : OGRFeature)
    (iField : Z) (u' : OGRField.t) : heap G :=
  with_feature h this (with_slot f iField u').

(** From [h] to [h'] nothing has changed but, at most, the slot of field
    [iField] of the record at [this]: the schemas, the geometries and the
    other records are the same, and so are the record's schema pointer,
    identifier, shape pointer and every other slot. *)
Definition only_slot_changed {G : Type} (h h' : heap G) (this : loc) (iField : Z) : Prop :=
  defns h' = defns h /\
  geoms h' = geoms h /\
  (forall q : loc, q <> this -> feats h' !! q = feats h !! q) /\
  exists f f' : OGRFeature,
    feats h !! this = Some f /\
    feats h' !! this = Some f' /\
    poDefn f' = poDefn f /\
    nFID f' = nFID f /\
    poGeometry f' = poGeometry f /\
    length (pauFields f') = length (pauFields f) /\
    forall j : Z, 0 <= j -> j <> iField ->
      pauFields f' !! Z.to_nat j = pauFields f !! Z.to_nat j.

(** The kinds the class handles. *)
Definition handled (ty : OGRFieldType) : bool :=
  match ty with
  | OFTInteger | OFTReal | OFTString => true
  | _ => false
  end.

(** What the typed copy of [SetField( int, OGRField * )] makes of a source
    slot [u] that follows the kind [ty], in a destination slot that was
    zeroed: the member of that kind, a string duplicated; nothing for the
    kinds the class leaves alone. *)
Definition copy_of (ty : OGRFieldType) (u : OGRField.t) : OGRField.t :=
  match ty, u with
  | OFTInteger, OGRField.Integer n => OGRField.Integer n
  | OFTInteger, _ => OGRField.Integer 0
  | OFTReal, OGRField.Real d => OGRField.Real d
  | OFTReal, _ => OGRField.Real Double.zero
  | OFTString, OGRField.String s => OGRField.String (CPLStrdup s)
  | OFTString, _ => OGRField.String (CPLStrdup CNull)
  | _, _ => OGRField.Zeroed
  end.

(** A record whose slots follow its schema and whose shape, if any, is a
    live geometry. *)
Definition feature_ok {G : Type} (h : heap G) (f : OGRFeature) : Prop :=
  (exists d,
     defns h !! poDefn f = Some d /\
     Forall2 (fun fd u => slot_matches (GetType fd) u = true)
             (papoFieldDefn d) (pauFields f)) /\
  (forall p, poGeometry f = Some p -> is_Some (geoms h !! p)).

(** "Truncated toward zero": [z] is the integer with the sign of [d] and
    [|z| <= |d| < |z| + 1]. *)
Definition truncated_toward_zero (d : Double.double) (z : Z) : Prop :=
  match d with
  | S754_zero _ => z = 0
  | S754_finite s m e =>
      let num := Zpos m * 2 ^ Z.max e 0 in
      let den := 2 ^ Z.max (- e) 0 in
      (if s then z <= 0 else 0 <= z) /\
      Z.abs z * den <= num < (Z.abs z + 1) * den
  | S754_infinity _ | S754_nan => False
  end.

(** What follows the white space and the sign at the start of a string. *)
Definition after_sign (c : string) : string :=
  snd (Libc.split_sign (Libc.skip_space c)).

Definition starts_with_digit (r : string) : bool :=
  match r with
  | String a _ => Libc.isdigit a
  | EmptyString => false
  end.

(** A string is numeric when a number starts it: digits, a point and
    digits, an infinity or a NaN. *)
Definition numeric (c : string) : bool :=
  let r := after_sign c in
  starts_with_digit r
  || match r with
     | String a r' => Ascii.eqb a "." && starts_with_digit r'
     | EmptyString => false
     end
  || Double.starts_with "inf" r
  || Double.starts_with "nan" r.



(** ** The destructor, and the pointer GetFieldAsString returns *)

(** Modelled from the spec: one holder of the schema fewer.  The schema
    itself stays where it is. *)
Definition Dereference (d : OGRFeatureDefn) : OGRFeatureDefn :=
  {| nRefCount := nRefCount d - 1;
     GetName := GetName d;
     papoFieldDefn := papoFieldDefn d |}.

(** Where the pointer that GetFieldAsString returns leads: into the
    record, to the string its slot owns at the time; to the static
    [szTempBuffer]; or to the literal of the empty string. *)
Inductive string_ref : Set :=
  | FieldString (this : loc) (iField : Z)
  | TempBuffer
  | EmptyLiteral.

Section Lifetime.

Context {G : Type} `{OGRGeometry G}.

Implicit Types (h : heap G) (this : loc) (iField : Z).

(** The loop of the destructor, about to run its iteration [i] with [n]
    more to go: the string of a String field is freed unless it is NULL. *)
Fixpoint destroy_fields h (f : OGRFeature) (i : Z) (n : nat) : outcome unit :=
  match n with
  | O => mret tt
  | S n' =>
      d ← defn_at h (poDefn f);
      poFDefn ← from_option NullDereference (GetFieldDefn d i);
      _ ← (if GetType poFDefn == OFTString then
             u ← field_slot f i; _ ← OGRField.read_String u; mret tt
           else mret tt);
      destroy_fields h f (i + 1) n'
  end.

(** [delete this]: the destructor [OGRFeature::~OGRFeature()], and the
    release of the object. *)
Definition delete_OGRFeature this h : outcome (heap G) :=
  f ← feature_at h this;
  d ← defn_at h (poDefn f);
  let ds := <[poDefn f := Dereference d]> (defns h) in
  gs ← delete_geometry h f;
  let h1 := {| defns := ds; geoms := gs; feats := feats h |} in
  d1 ← defn_at h1 (poDefn f);
  _ ← destroy_fields h1 f 0 (Z.to_nat (GetFieldCount d1));
  mret {| defns := ds; geoms := gs; feats := delete this (feats h) |}.

(** GetFieldAsString as to where its result points: the pointer returned,
    and the content of [szTempBuffer] after the call. *)
Definition GetFieldAsString_ref this iField (szTempBuffer : string) h
    : outcome (string_ref * string) :=
  f ← feature_at h this;
  ty ← field_type h f iField;
  if ty == OFTString then
    u ← field_slot f iField;
    s ← OGRField.read_String u;
    match s with
    | CNull => mret (EmptyLiteral, szTempBuffer)
    | CStr _ => mret (FieldString this iField, szTempBuffer)
    end
  else if ty == OFTInteger then
    u ← field_slot f iField;
    n ← OGRField.read_Integer u;
    mret (TempBuffer, Libc.sprintf_d n)
  else if ty == OFTReal then
    u ← field_slot f iField;
    d ← OGRField.read_Real u;
    mret (TempBuffer, Double.sprintf_g d)
  else mret (EmptyLiteral, szTempBuffer).

(** The characters a pointer returned by GetFieldAsString leads to. *)
Definition string_at (r : string_ref) (szTempBuffer : string) h : outcome cstring :=
  match r with
  | FieldString this iField =>
      f ← feature_at h this; u ← field_slot f iField; OGRField.read_String u
  | TempBuffer => mret (CStr szTempBuffer)
  | EmptyLiteral => mret (CStr EmptyString)
  end.

End Lifetime.

(** The kinds whose text GetFieldAsString formats. *)
Definition numeric_kind (ty : OGRFieldType) : bool :=
  match ty with
  | OFTInteger | OFTReal => true
  | _ => false
  end.

(** Every live record is well formed. *)
Definition records_ok {G : Type} (h : heap G) : Prop :=
  forall (p : loc) (f : OGRFeature), feats h !! p = Some f -> feature_ok h f.

(** No geometry is the shape of two records. *)
Definition shapes_owned_once {G : Type} (h : heap G) : Prop :=
  forall (p q s : loc) (f g : OGRFeature),
    feats h !! p = Some f -> feats h !! q = Some g ->
    poGeometry f = Some s -> poGeometry g = Some s -> p = q.

(** The double [d] is the integer [n], exactly. *)
Definition is_integer (d : Double.double) (n : Z) : Prop :=
  match d with
  | S754_zero _ => n = 0
  | S754_finite s m e => cond_Zopp s (Zpos m) = n * 2 ^ (- e) /\ e <= 0
  | S754_infinity _ | S754_nan => False
  end.

(** ** DumpReadable *)

Definition newline : string := String "010"%char EmptyString.

(** Modelled from the spec: [OGRGeometry::dumpReadable( fpOut, pszPrefix )],
    as the text it writes. *)
Class OGRGeometryDump (G : Type) := {
  OGRGeometry_dumpReadable : G -> string -> string
}.

(** The line [fprintf( fpOut, "  %s (%s) = %s\n", ... )] writes. *)
Definition field_line (name kind text : string) : string :=
  ("  " ++ name ++ " (" ++ kind ++ ") = " ++ text ++ newline)%string.

Section Dump.

Context {G : Type} `{OGRGeometry G} `{OGRGeometryDump G}.

(** Modelled from the spec: [OGRFieldDefn::GetFieldTypeName], the name of
    a kind. *)
Variable GetFieldTypeName : OGRFieldType -> string.

Implicit Types (h : heap G) (this : loc) (iField : Z).

(** The loop of DumpReadable, about to write the line of field [iField]
    with [n] more to go, onto what [fpOut] holds. *)
Fixpoint DumpReadable_fields this iField (n : nat) h (fpOut : string) : outcome string :=
  match n with
  | O => mret fpOut
  | S n' =>
      f ← feature_at h this;
      d ← defn_at h (poDefn f);
      poFDefn ← from_option NullDereference (GetFieldDefn d iField);
      s ← GetFieldAsString this iField h;
      text ← match s with
             | CNull => Undefined NullDereference
             | CStr c => mret c
             end;
      DumpReadable_fields this (iField + 1) n' h
        (fpOut ++ field_line (GetNameRef poFDefn)
                             (GetFieldTypeName (GetType poFDefn)) text)%string
  end.

(** [DumpReadable( fpOut )], as what the stream holds afterwards. *)
Definition DumpReadable this (fpOut : string) h : outcome string :=
  f ← feature_at h this;
  d ← defn_at h (poDefn f);
  let head :=
    (fpOut ++ "OGRFeature(" ++ GetName d ++ "):" ++ Libc.sprintf_d (nFID f) ++ newline)%string in
  body ← DumpReadable_fields this 0 (Z.to_nat (GetFieldCount d)) h head;
  shaped ← match poGeometry f with
           | Some p =>
               g ← geometry_at h p;
               mret (body ++ OGRGeometry_dumpReadable g "  ")%string
           | None => mret body
           end;
  mret (shaped ++ newline)%string.

End Dump.

(** The text of a slot that follows the kind [ty]. *)
Definition field_text (ty : OGRFieldType) (u : OGRField.t) : string :=
  match ty with
  | OFTString =>
      match u with
      | OGRField.String (CStr c) => c
      | _ => EmptyString
      end
  | OFTInteger =>
      match u with
      | OGRField.Integer n => Libc.sprintf_d n
      | _ => Libc.sprintf_d 0
      end
  | OFTReal =>
      match u with
      | OGRField.Real d => Double.sprintf_g d
      | _ => Double.sprintf_g Double.zero
      end
  | _ => EmptyString
  end.

(** The lines DumpReadable writes for the fields, in the order of the
    schema, the kinds named by [GetFieldTypeName]. *)
Definition field_lines (GetFieldTypeName : OGRFieldType -> string)
    (d : OGRFeatureDefn) (f : OGRFeature) : list string :=
  zip_with (fun fd u => field_line (GetNameRef fd) (GetFieldTypeName (GetType fd))
                                   (field_text (GetType fd) u))
           (papoFieldDefn d) (pauFields f).

(** Names for the kinds, and a dump for points, for the examples. *)
Definition kind_name (ty : OGRFieldType) : string :=
  match ty with
  | OFTInteger => "Integer"
  | OFTIntegerList => "IntegerList"
  | OFTReal => "Real"
  | OFTRealList => "RealList"
  | OFTString => "String"
  | OFTStringList => "StringList"
  | OFTWideString => "WideString"
  | OFTWideStringList => "WideStringList"
  | OFTBinary => "Binary"
  end.

#[global] Instance OGRPoint_dump : OGRGeometryDump OGRPoint := {|
  OGRGeometry_dumpReadable p prefix :=
    (prefix ++ "POINT (" ++ Libc.sprintf_d (getX p) ++ " "
            ++ Libc.sprintf_d (getY p) ++ ")" ++ newline)%string
|}.

(** ** The four overloads of SetField as one *)

(** What a caller hands to SetField: an [int], a [double], a string, or
    a pointer to a union. *)
Inductive field_value : Set :=
  | IntValue (nValue : Z)
  | DoubleValue (dfValue : Double.double)
  | StringValue (pszValue : cstring)
  | RawValue (puValue : OGRField.t).

(** The call [SetField( iField, v )], resolved by the type of [v]. *)
Definition SetField {G : Type} (this : loc) (iField : Z) (v : field_value)
    (h : heap G) : outcome (heap G) :=
  match v with
  | IntValue nValue => SetField_int this iField nValue h
  | DoubleValue dfValue => SetField_double this iField dfValue h
  | StringValue pszValue => SetField_string this iField pszValue h
  | RawValue puValue => SetField_raw this iField puValue h
  end.

(** What SetField puts into the slot of a field of kind [ty] when handed
    [v]; nothing for the kinds it leaves alone. *)
Definition slot_written (ty : OGRFieldType) (v : field_value) : outcome (option OGRField.t) :=
  match ty with
  | OFTInteger =>
      match v with
      | IntValue n => Done (Some (OGRField.Integer n))
      | DoubleValue d => n ← Double.to_int d; Done (Some (OGRField.Integer n))
      | StringValue CNull => Undefined NullDereference
      | StringValue (CStr c) => n ← Libc.atoi c; Done (Some (OGRField.Integer n))
      | RawValue u => n ← OGRField.read_Integer u; Done (Some (OGRField.Integer n))
      end
  | OFTReal =>
      match v with
      | IntValue n => Done (Some (OGRField.Real (Double.of_int n)))
      | DoubleValue d => Done (Some (OGRField.Real d))
      | StringValue CNull => Undefined NullDereference
      | StringValue (CStr c) => Done (Some (OGRField.Real (Double.atof c)))
      | RawValue u => d ← OGRField.read_Real u; Done (Some (OGRField.Real d))
      end
  | OFTString =>
      match v with
      | IntValue n => Done (Some (OGRField.String (CStr (Libc.sprintf_d n))))
      | DoubleValue d => Done (Some (OGRField.String (CStr (Double.sprintf_g d))))
      | StringValue s => Done (Some (OGRField.String (CPLStrdup s)))
      | RawValue u => s ← OGRField.read_String u; Done (Some (OGRField.String (CPLStrdup s)))
      end
  | _ => Done None
  end.

(** ** Properties of the C library model *)

Section LibcFacts.

Lemma bind_Done {A B : Type} (a : A) (k : A -> outcome B) :
  (Done a ≫= k) = k a.
Proof. reflexivity. Qed.

Lemma leading_digits_no_digit (acc : Z) (r : string) :
  starts_with_digit r = false -> Libc.leading_digits acc r = acc.
Proof.
  destruct r as [|a r]; simpl; [reflexivity|].
  intros ->. reflexivity.
Qed.




Lemma digit_is_no_space_nor_sign (a : ascii) :
  Libc.isdigit a = true ->
  Libc.isspace a = false /\ Ascii.eqb a "-" = false /\ Ascii.eqb a "+" = false.
Proof.
  intros Hd. split; [|split].
  - unfold Libc.isdigit in Hd. unfold Libc.isspace.
    apply andb_true_iff in Hd as [Hlo Hhi].
    apply Z.leb_le in Hlo. apply Z.leb_le in Hhi.
    apply orb_false_iff. split; [apply Z.eqb_neq; lia|].
    apply andb_false_iff. right. apply Z.leb_gt. lia.
  - destruct (Ascii.eqb_spec a "-") as [->|]; [discriminate Hd | reflexivity].
  - destruct (Ascii.eqb_spec a "+") as [->|]; [discriminate Hd | reflexivity].
Qed.

(** A string that starts with a digit has no white space and no sign for
    [strtol] to skip. *)
Lemma leading_integer_digits (s : string) :
  starts_with_digit s = true -> Libc.leading_integer s = Libc.leading_digits 0 s.
Proof.
  destruct s as [|a r]; [discriminate|]. simpl. intros Hd.
  destruct (digit_is_no_space_nor_sign a Hd) as (Hsp & Hm & Hp).
  unfold Libc.leading_integer. simpl. rewrite Hsp. simpl. rewrite Hm, Hp.
  reflexivity.
Qed.

(** The digits [strtol] reads are the ones the decimal notation writes. *)
Lemma leading_digits_acc (l : Decimal.uint) (acc : positive) (rest : string) :
  starts_with_digit rest = false ->
  Libc.leading_digits (Zpos acc) (NilEmpty.string_of_uint l ++ rest) =
    Zpos (Pos.of_uint_acc l acc).
Proof.
  intros Hrest. revert acc.
  induction l as [|l IH|l IH|l IH|l IH|l IH|l IH|l IH|l IH|l IH|l IH]; intros acc;
    [apply (leading_digits_no_digit _ _ Hrest) | ..];
    simpl; rewrite <- IH; f_equal;
    match goal with |- context [Libc.digit_value ?c] =>
      let v := eval vm_compute in (Libc.digit_value c) in
      change (Libc.digit_value c) with v
    end; lia.
Qed.

Lemma leading_digits_uint (d : Decimal.uint) (rest : string) :
  starts_with_digit rest = false ->
  Libc.leading_digits 0 (NilEmpty.string_of_uint d ++ rest) = Z.of_N (Pos.of_uint d).
Proof.
  intros Hrest.
  induction d as [|l IH|l IH|l IH|l IH|l IH|l IH|l IH|l IH|l IH|l IH];
    [apply (leading_digits_no_digit _ _ Hrest) | exact IH | ..];
    simpl; apply (leading_digits_acc l _ rest Hrest).
Qed.

Lemma string_of_uint_starts_with_digit (d : Decimal.uint) (rest : string) :
  d <> Decimal.Nil -> starts_with_digit (NilEmpty.string_of_uint d ++ rest) = true.
Proof. destruct d; [congruence | reflexivity ..]. Qed.

(** [strtol] reads back what [%d] has written, whatever follows it that
    is not a digit. *)
Lemma leading_integer_sprintf_d (n : Z) (rest : string) :
  starts_with_digit rest = false ->
  Libc.leading_integer (Libc.sprintf_d n ++ rest) = n.
Proof.
  intros Hrest. unfold Libc.sprintf_d. destruct n as [|p|p]; simpl.
  - rewrite leading_integer_digits by reflexivity. simpl.
    apply (leading_digits_no_digit _ _ Hrest).
  - pose proof (Unsigned.to_uint_nonnil p) as Hnil.
    replace (NilZero.string_of_uint (Pos.to_uint p))
      with (NilEmpty.string_of_uint (Pos.to_uint p))
      by (destruct (Pos.to_uint p); [contradiction | reflexivity ..]).
    rewrite leading_integer_digits
      by (apply string_of_uint_starts_with_digit, Hnil).
    rewrite (leading_digits_uint _ _ Hrest), DecimalPos.Unsigned.of_to.
    reflexivity.
  - pose proof (Unsigned.to_uint_nonnil p) as Hnil.
    replace (NilZero.string_of_uint (Pos.to_uint p))
      with (NilEmpty.string_of_uint (Pos.to_uint p))
      by (destruct (Pos.to_uint p); [contradiction | reflexivity ..]).
    unfold Libc.leading_integer. simpl.
    rewrite (leading_digits_uint _ _ Hrest), DecimalPos.Unsigned.of_to.
    reflexivity.
Qed.

Lemma atoi_sprintf_d (n : Z) (rest : string) :
  in_int n = true ->
  starts_with_digit rest = false ->
  Libc.atoi (Libc.sprintf_d n ++ rest) = Done n.
Proof.
  intros Hin Hrest. unfold Libc.atoi.
  rewrite (leading_integer_sprintf_d n rest Hrest), Hin. reflexivity.
Qed.

End LibcFacts.

Section DoubleFacts.

Lemma span_digits_no_digit (acc n : Z) (r : string) :
  starts_with_digit r = false -> Double.span_digits 10 acc n r = (acc, n, r).
Proof.
  destruct r as [|a r]; simpl; [reflexivity|].
  unfold Double.digit_in; simpl. intros ->. reflexivity.
Qed.

Lemma span_mantissa_no_digit (r : string) :
  starts_with_digit r = false ->
  match r with
  | String a r' => Ascii.eqb a "." && starts_with_digit r'
  | EmptyString => false
  end = false ->
  exists m nf, Double.span_mantissa 10 r = (m, 0, nf).
Proof.
  intros Hd Hp. unfold Double.span_mantissa.
  rewrite (span_digits_no_digit _ _ _ Hd).
  destruct r as [|a r']; [eauto|].
  destruct (Ascii.eqb a "."); simpl in Hp; [|eauto].
  rewrite (span_digits_no_digit _ _ _ Hp). eauto.
Qed.

Lemma no_hex_prefix (a x : ascii) :
  Libc.isdigit a = false -> Ascii.eqb a "0" && Ascii.eqb (Double.tolower x) "x" = false.
Proof.
  intros Hd. destruct (Ascii.eqb_spec a "0") as [->|]; [discriminate Hd | reflexivity].
Qed.

(** A string no number starts is converted to (positive) zero. *)
Lemma atof_non_numeric (c : string) :
  numeric c = false -> Double.atof c = Double.zero.
Proof.
  unfold numeric, Double.atof, Double.strtod, after_sign.
  destruct (Libc.split_sign (Libc.skip_space c)) as [neg r]; cbn [snd].
  intros Hn.
  apply orb_false_iff in Hn as [Hn Hnan].
  apply orb_false_iff in Hn as [Hn Hinf].
  apply orb_false_iff in Hn as [Hd Hp].
  unfold Double.unsigned_value. rewrite Hinf, Hnan.
  destruct (span_mantissa_no_digit r Hd Hp) as (m & nf & Hm).
  assert (Hhex : match r with
                 | String a (String x t) =>
                     if Ascii.eqb a "0" && Ascii.eqb (Double.tolower x) "x" then
                       let '(m, n, nf) := Double.span_mantissa 16 t in
                       if 0 <? n
                       then Some (Double.of_binary neg m
                               (Double.span_exponent "p" (Double.after_mantissa 16 t) - 4 * nf))
                       else None
                     else None
                 | _ => None
                 end = None).
  { destruct r as [|a [|x t]]; try reflexivity.
    simpl in Hd. rewrite (no_hex_prefix a x Hd). reflexivity. }
  rewrite Hhex, Hm. reflexivity.
Qed.

Lemma shiftr_pow2_bounds (m k : Z) :
  0 <= m -> 0 <= k ->
  Z.shiftr m k * 2 ^ k <= m < (Z.shiftr m k + 1) * 2 ^ k.
Proof.
  intros Hm Hk. rewrite Z.shiftr_div_pow2 by assumption.
  assert (Hpos : 0 < 2 ^ k) by (apply Z.pow_pos_nonneg; lia).
  pose proof (Z.div_mod m (2 ^ k) ltac:(lia)) as Hdm.
  pose proof (Z.mod_pos_bound m (2 ^ k) Hpos) as Hb.
  nia.
Qed.

(** The integer part is the magnitude truncated. *)
Lemma integer_part_bounds (m : positive) (e : Z) :
  0 <= Double.integer_part m e /\
  Double.integer_part m e * 2 ^ Z.max (- e) 0
    <= Zpos m * 2 ^ Z.max e 0
    < (Double.integer_part m e + 1) * 2 ^ Z.max (- e) 0.
Proof.
  unfold Double.integer_part. destruct e as [|k|k].
  - change (Z.max (- 0) 0) with 0. change (Z.max 0 0) with 0.
    rewrite Z.shiftl_0_r, Z.pow_0_r. lia.
  - rewrite Z.shiftl_mul_pow2 by lia.
    replace (Z.max (- Zpos k) 0) with 0 by lia.
    replace (Z.max (Zpos k) 0) with (Zpos k) by lia.
    assert (0 < 2 ^ Zpos k) by (apply Z.pow_pos_nonneg; lia).
    rewrite Z.pow_0_r. nia.
  - replace (Z.max (- Zneg k) 0) with (Zpos k) by lia.
    replace (Z.max (Zneg k) 0) with 0 by lia.
    rewrite Z.pow_0_r, Z.mul_1_r.
    pose proof (shiftr_pow2_bounds (Zpos m) (Zpos k) ltac:(lia) ltac:(lia)) as Hb.
    split; [|exact Hb].
    apply Z.shiftr_nonneg. lia.
Qed.

Lemma truncation_unique (num den a b : Z) :
  0 < den -> 0 <= a -> 0 <= b ->
  a * den <= num < (a + 1) * den ->
  b * den <= num < (b + 1) * den ->
  a = b.
Proof. intros. nia. Qed.

(** The cast [(int) d] yields the truncation of [d] toward zero whenever
    that is an [int]. *)
Lemma to_int_truncates (d : Double.double) (z : Z) :
  truncated_toward_zero d z -> in_int z = true -> Double.to_int d = Done z.
Proof.
  destruct d as [s|s| |s m e]; simpl; try contradiction.
  - intros ->. reflexivity.
  - intros [Hsign Hb] Hin.
    destruct (integer_part_bounds m e) as [Hnn Hi].
    assert (Hden : 0 < 2 ^ Z.max (- e) 0) by (apply Z.pow_pos_nonneg; lia).
    assert (Habs : Double.integer_part m e = Z.abs z).
    { eapply truncation_unique; eauto; lia. }
    assert (Hz : cond_Zopp s (Double.integer_part m e) = z).
    { rewrite Habs. destruct s; simpl; lia. }
    rewrite Hz, Hin. reflexivity.
Qed.

(** Conversely, whatever the cast yields is the truncation toward zero. *)
Lemma to_int_Done_truncated (d : Double.double) (z : Z) :
  Double.to_int d = Done z -> truncated_toward_zero d z /\ in_int z = true.
Proof.
  destruct d as [s|s| |s m e]; simpl; try discriminate.
  - intros [= <-]. split; reflexivity.
  - destruct (in_int (cond_Zopp s (Double.integer_part m e))) eqn:Hin; [|discriminate].
    intros [= <-]. split; [|exact Hin].
    destruct (integer_part_bounds m e) as [Hnn Hi].
    destruct s; simpl; (split; [lia|]).
    + rewrite Z.abs_opp, Z.abs_eq by lia. exact Hi.
    + rewrite Z.abs_eq by lia. exact Hi.
Qed.

End DoubleFacts.

(** ** Equal *)

Section EqualFacts.

Context {G : Type} `{OGRGeometry G}.

Implicit Types (h : heap G) (a b this : loc) (fa fb : OGRFeature).

Lemma feature_at_live h this (f : OGRFeature) :
  feats h !! this = Some f -> feature_at h this = Done f.
Proof. unfold feature_at. intros ->. reflexivity. Qed.

(** What [Equal] computes for two different live records. *)
Lemma Equal_distinct h a b fa fb :
  a <> b ->
  feats h !! a = Some fa ->
  feats h !! b = Some fb ->
  Equal a b h =
    if negb (nFID fa =? nFID fb) then Done FALSE
    else if negb (poDefn fa =? poDefn fb)%positive then Done FALSE
    else
      match poGeometry fa with
      | Some p =>
          g ← geometry_at h p;
          other ← match poGeometry fb with
                  | Some q => o ← geometry_at h q; mret (Some o)
                  | None => mret None
                  end;
          if negb (OGRGeometry_Equal g other) then Done FALSE else Done TRUE
      | None => Done TRUE
      end.
Proof.
  intros Hab Ha Hb. unfold Equal.
  destruct (decide (b = a)) as [->|_]; [contradiction|].
  rewrite (feature_at_live _ _ _ Ha), (feature_at_live _ _ _ Hb).
  reflexivity.
Qed.

(** C2: two distinct records on the same schema instance, with the same
    identifier and both without a shape, are Equal whatever their field
    values are. *)
Theorem Equal_ignores_field_values h a b fa fb :
  a <> b ->
  feats h !! a = Some fa ->
  feats h !! b = Some fb ->
  poDefn fa = poDefn fb ->
  nFID fa = nFID fb ->
  poGeometry fa = None ->
  poGeometry fb = None ->
  Equal a b h = Done TRUE.
Proof.
  intros Hab Ha Hb Hdefn Hfid Hga Hgb.
  rewrite (Equal_distinct h a b fa fb Hab Ha Hb).
  rewrite Hfid, Z.eqb_refl, Hdefn, Pos.eqb_refl, Hga. reflexivity.
Qed.

(** C3: with identifier and schema instance the same, a record without a
    shape is Equal to any other record, with or without a shape; a record
    with a shape is Equal to a different record exactly when its shape is
    shape-equal to what the other's shape pointer leads to. *)
Theorem Equal_shape_check_asymmetric h a b fa fb :
  feats h !! a = Some fa ->
  feats h !! b = Some fb ->
  nFID fa = nFID fb ->
  poDefn fa = poDefn fb ->
  (poGeometry fa = None -> Equal a b h = Done TRUE) /\
  (forall p g,
     a <> b ->
     poGeometry fa = Some p ->
     geoms h !! p = Some g ->
     (forall q, poGeometry fb = Some q -> is_Some (geoms h !! q)) ->
     Equal a b h = Done (OGRGeometry_Equal g (q ← poGeometry fb; geoms h !! q))).
Proof.
  intros Ha Hb Hfid Hdefn. split.
  - intros Hga. destruct (decide (a = b)) as [->|Hab].
    + unfold Equal. destruct (decide (b = b)); [reflexivity | contradiction].
    + rewrite (Equal_distinct h a b fa fb Hab Ha Hb).
      rewrite Hfid, Z.eqb_refl, Hdefn, Pos.eqb_refl, Hga. reflexivity.
  - intros p g Hab Hga Hg Hlive.
    rewrite (Equal_distinct h a b fa fb Hab Ha Hb).
    rewrite Hfid, Z.eqb_refl, Hdefn, Pos.eqb_refl, Hga.
    unfold geometry_at. rewrite Hg. simpl.
    destruct (poGeometry fb) as [q|]; simpl.
    + destruct (Hlive q eq_refl) as [o Ho].
      rewrite Ho. simpl.
      destruct (OGRGeometry_Equal g (Some o)); reflexivity.
    + destruct (OGRGeometry_Equal g None); reflexivity.
Qed.

(** C4: two distinct records whose identifiers differ are not Equal,
    whatever else they hold. *)
Theorem Equal_false_on_different_identifiers h a b fa fb :
  a <> b ->
  feats h !! a = Some fa ->
  feats h !! b = Some fb ->
  nFID fa <> nFID fb ->
  Equal a b h = Done FALSE.
Proof.
  intros Hab Ha Hb Hfid.
  rewrite (Equal_distinct h a b fa fb Hab Ha Hb).
  destruct (Z.eqb_spec (nFID fa) (nFID fb)) as [Heq|_]; [contradiction|].
  reflexivity.
Qed.

End EqualFacts.

(** ** The typed accessors *)

Section AccessorFacts.

Context {G : Type} `{OGRGeometry G}.

Implicit Types (h : heap G) (this : loc) (iField : Z) (f : OGRFeature)
  (ty : OGRFieldType) (u : OGRField.t).

Lemma field_of_type h this iField f ty u :
  field_of h this iField f ty u -> field_type h f iField = Done ty.
Proof.
  intros (_ & (d & fd & Hd & Hfd & Hty) & _).
  unfold field_type, defn_at. rewrite Hd. simpl. rewrite Hfd. simpl.
  rewrite Hty. reflexivity.
Qed.

Lemma field_of_slot h this iField f ty u :
  field_of h this iField f ty u -> field_slot f iField = Done u.
Proof.
  intros (_ & _ & Hu & _). unfold field_slot. rewrite Hu. reflexivity.
Qed.

End AccessorFacts.

(** The prelude every accessor shares, run on a well-formed field. *)
Ltac enter Hf :=
  rewrite ?(feature_at_live _ _ _ (proj1 Hf));
  rewrite ?bind_Done, ?(field_of_type _ _ _ _ _ _ Hf);
  rewrite ?bind_Done, ?(field_of_slot _ _ _ _ _ _ Hf);
  rewrite ?bind_Done.

Section AccessorEquations.

Context {G : Type} `{OGRGeometry G}.

Implicit Types (h : heap G) (this : loc) (iField : Z) (f : OGRFeature)
  (ty : OGRFieldType) (u : OGRField.t).

Lemma GetFieldAsInteger_eq h this iField f ty u :
  field_of h this iField f ty u ->
  GetFieldAsInteger this iField h =
    match ty with
    | OFTInteger => OGRField.read_Integer u
    | OFTReal => d ← OGRField.read_Real u; Double.to_int d
    | OFTString =>
        s ← OGRField.read_String u;
        match s with
        | CNull => Done 0
        | CStr c => Libc.atoi c
        end
    | _ => Done 0
    end.
Proof.
  intros Hf. unfold GetFieldAsInteger. enter Hf.
  destruct ty; reflexivity.
Qed.

Lemma GetFieldAsDouble_eq h this iField f ty u :
  field_of h this iField f ty u ->
  GetFieldAsDouble this iField h =
    match ty with
    | OFTReal => OGRField.read_Real u
    | OFTInteger => n ← OGRField.read_Integer u; Done (Double.of_int n)
    | OFTString =>
        s ← OGRField.read_String u;
        match s with
        | CNull => Done Double.zero
        | CStr c => Done (Double.atof c)
        end
    | _ => Done Double.zero
    end.
Proof.
  intros Hf. unfold GetFieldAsDouble. enter Hf.
  destruct ty; reflexivity.
Qed.

Lemma GetFieldAsString_eq h this iField f ty u :
  field_of h this iField f ty u ->
  GetFieldAsString this iField h =
    match ty with
    | OFTString =>
        s ← OGRField.read_String u;
        match s with
        | CNull => Done (CStr EmptyString)
        | CStr c => Done (CStr c)
        end
    | OFTInteger => n ← OGRField.read_Integer u; Done (CStr (Libc.sprintf_d n))
    | OFTReal => d ← OGRField.read_Real u; Done (CStr (Double.sprintf_g d))
    | _ => Done (CStr EmptyString)
    end.
Proof.
  intros Hf. unfold GetFieldAsString. enter Hf.
  destruct ty; reflexivity.
Qed.

(** A slot that follows its kind can be read through the member of that
    kind. *)
Lemma slot_matches_String u :
  slot_matches OFTString u = true -> exists s, OGRField.read_String u = Done s.
Proof. destruct u; simpl; try discriminate; eauto. Qed.

Lemma slot_matches_Integer u :
  slot_matches OFTInteger u = true -> exists n, OGRField.read_Integer u = Done n.
Proof. destruct u; simpl; try discriminate; eauto. Qed.

Lemma slot_matches_Real u :
  slot_matches OFTReal u = true -> exists d, OGRField.read_Real u = Done d.
Proof. destruct u; simpl; try discriminate; eauto. Qed.

(** Assigning a slot of a well-formed field succeeds, and leaves a
    well-formed field holding what was assigned. *)
Lemma assign_slot_field h this iField f ty u (u' : OGRField.t) :
  field_of h this iField f ty u ->
  assign_slot h this f iField u' = Done (with_feature h this (with_slot f iField u')).
Proof.
  intros Hf. unfold assign_slot. enter Hf. reflexivity.
Qed.

Lemma field_of_assigned h this iField f ty u (u' : OGRField.t) :
  field_of h this iField f ty u ->
  slot_matches ty u' = true ->
  field_of (with_feature h this (with_slot f iField u')) this iField
           (with_slot f iField u') ty u'.
Proof.
  intros (Hthis & Hdefn & Hu & _) Hm. unfold field_of. simpl.
  split; [apply lookup_insert_eq|].
  split; [exact Hdefn|].
  split; [|exact Hm].
  apply list_lookup_insert_eq. apply lookup_lt_Some in Hu. exact Hu.
Qed.

Lemma replace_string_field h this iField f u (s : cstring) :
  field_of h this iField f OFTString u ->
  replace_string h this f iField s =
    Done (with_feature h this (with_slot f iField (OGRField.String (CPLStrdup s)))).
Proof.
  intros Hf. unfold replace_string. enter Hf.
  destruct (slot_matches_String u (proj2 (proj2 (proj2 Hf)))) as [old ->].
  rewrite bind_Done. apply (assign_slot_field _ _ _ _ _ _ _ Hf).
Qed.

End AccessorEquations.

Section SetterEquations.

Context {G : Type} `{OGRGeometry G}.

Implicit Types (h : heap G) (this : loc) (iField : Z) (f : OGRFeature)
  (ty : OGRFieldType) (u : OGRField.t).

Lemma SetField_int_eq h this iField f ty u (nValue : Z) :
  field_of h this iField f ty u ->
  SetField_int this iField nValue h =
    match ty with
    | OFTInteger => Done (stored h this f iField (OGRField.Integer nValue))
    | OFTReal => Done (stored h this f iField (OGRField.Real (Double.of_int nValue)))
    | OFTString =>
        Done (stored h this f iField (OGRField.String (CStr (Libc.sprintf_d nValue))))
    | _ => Done h
    end.
Proof.
  intros Hf. unfold SetField_int. enter Hf.
  destruct ty; try reflexivity; cbn [same_type enumerator Z.eqb Pos.eqb].
  - apply (assign_slot_field _ _ _ _ _ _ _ Hf).
  - apply (assign_slot_field _ _ _ _ _ _ _ Hf).
  - exact (replace_string_field h this iField f u (CStr _) Hf).
Qed.

Lemma SetField_double_eq h this iField f ty u (dfValue : Double.double) :
  field_of h this iField f ty u ->
  SetField_double this iField dfValue h =
    match ty with
    | OFTReal => Done (stored h this f iField (OGRField.Real dfValue))
    | OFTInteger =>
        n ← Double.to_int dfValue;
        Done (stored h this f iField (OGRField.Integer n))
    | OFTString =>
        Done (stored h this f iField (OGRField.String (CStr (Double.sprintf_g dfValue))))
    | _ => Done h
    end.
Proof.
  intros Hf. unfold SetField_double. enter Hf.
  destruct ty; try reflexivity; cbn [same_type enumerator Z.eqb Pos.eqb].
  - destruct (Double.to_int dfValue); [|reflexivity].
    rewrite !bind_Done. apply (assign_slot_field _ _ _ _ _ _ _ Hf).
  - apply (assign_slot_field _ _ _ _ _ _ _ Hf).
  - exact (replace_string_field h this iField f u (CStr _) Hf).
Qed.

Lemma SetField_string_eq h this iField f ty u (pszValue : cstring) :
  field_of h this iField f ty u ->
  SetField_string this iField pszValue h =
    match ty with
    | OFTString => Done (stored h this f iField (OGRField.String (CPLStrdup pszValue)))
    | OFTInteger =>
        match pszValue with
        | CNull => Undefined NullDereference
        | CStr c =>
            n ← Libc.atoi c; Done (stored h this f iField (OGRField.Integer n))
        end
    | OFTReal =>
        match pszValue with
        | CNull => Undefined NullDereference
        | CStr c => Done (stored h this f iField (OGRField.Real (Double.atof c)))
        end
    | _ => Done h
    end.
Proof.
  intros Hf. unfold SetField_string. enter Hf.
  destruct ty; try reflexivity; cbn [same_type enumerator Z.eqb Pos.eqb].
  - destruct pszValue as [|c]; [reflexivity|].
    destruct (Libc.atoi c); [|reflexivity].
    rewrite !bind_Done. apply (assign_slot_field _ _ _ _ _ _ _ Hf).
  - destruct pszValue as [|c]; [reflexivity|].
    apply (assign_slot_field _ _ _ _ _ _ _ Hf).
  - apply (replace_string_field _ _ _ _ _ _ Hf).
Qed.

Lemma SetField_raw_eq h this iField f ty u (puValue : OGRField.t) :
  field_of h this iField f ty u ->
  SetField_raw this iField puValue h =
    match ty with
    | OFTInteger =>
        n ← OGRField.read_Integer puValue;
        Done (stored h this f iField (OGRField.Integer n))
    | OFTReal =>
        d ← OGRField.read_Real puValue;
        Done (stored h this f iField (OGRField.Real d))
    | OFTString =>
        s ← OGRField.read_String puValue;
        Done (stored h this f iField (OGRField.String (CPLStrdup s)))
    | _ => Done h
    end.
Proof.
  intros Hf. unfold SetField_raw. enter Hf.
  destruct ty; try reflexivity; cbn [same_type enumerator Z.eqb Pos.eqb].
  - destruct (OGRField.read_Integer puValue); [|reflexivity].
    rewrite !bind_Done. apply (assign_slot_field _ _ _ _ _ _ _ Hf).
  - destruct (OGRField.read_Real puValue); [|reflexivity].
    rewrite !bind_Done. apply (assign_slot_field _ _ _ _ _ _ _ Hf).
  - destruct (OGRField.read_String puValue); [|reflexivity].
    rewrite !bind_Done. apply (replace_string_field _ _ _ _ _ _ Hf).
Qed.

(** After a store the field is well formed again, with the new content. *)
Lemma field_of_stored h this iField f ty u (u' : OGRField.t) :
  field_of h this iField f ty u ->
  slot_matches ty u' = true ->
  field_of (stored h this f iField u') this iField (with_slot f iField u') ty u'.
Proof. apply field_of_assigned. Qed.

(** The fields of a record that has just been constructed. *)
Lemma new_OGRFeature_field h (poDefnIn : loc) (d : OGRFeatureDefn)
    iField (fd : OGRFieldDefn) :
  defns h !! poDefnIn = Some d ->
  GetFieldDefn d iField = Some fd ->
  exists this h' f,
    new_OGRFeature poDefnIn h = Done (this, h') /\
    field_of h' this iField f (GetType fd) OGRField.Zeroed /\
    (this ∉ dom (feats h)) /\
    nFID f = OGRNullFID /\
    poGeometry f = None.
Proof.
  intros Hd Hfd. unfold new_OGRFeature, defn_at. rewrite Hd. simpl.
  eexists _, _, _. split; [reflexivity|].
  split.
  - unfold field_of. simpl.
    split; [apply lookup_insert_eq|]. simpl.
    split.
    { exists (Reference d), fd. split; [apply lookup_insert_eq|].
      split; [exact Hfd | reflexivity]. }
    split; [|reflexivity].
    apply lookup_replicate_2.
    unfold GetFieldDefn in Hfd.
    destruct ((0 <=? iField) && (iField <? GetFieldCount d)) eqn:Hrange; [|discriminate].
    apply andb_true_iff in Hrange as [H0 H1].
    apply Z.leb_le in H0. apply Z.ltb_lt in H1.
    unfold GetFieldCount in *. simpl. lia.
  - split; [apply is_fresh|]. split; reflexivity.
Qed.

End SetterEquations.

(** ** Reading and writing fields *)

Section FieldTheorems.

Context {G : Type} `{OGRGeometry G}.

Implicit Types (h : heap G) (this : loc) (iField : Z) (f : OGRFeature)
  (ty : OGRFieldType) (u : OGRField.t).

(** C8: on a String field whose value is unset, GetFieldAsString returns
    the empty string, not a null pointer; this is so in particular for
    every String field of a record that has just been constructed.  No
    call of GetFieldAsString at all returns a null pointer. *)
Theorem GetFieldAsString_unset_is_empty :
  (forall h this iField f u,
     field_of h this iField f OFTString u ->
     OGRField.read_String u = Done CNull ->
     GetFieldAsString this iField h = Done (CStr EmptyString)) /\
  (forall h this iField, GetFieldAsString this iField h <> Done CNull) /\
  (forall h (poDefnIn : loc) (d : OGRFeatureDefn) iField (fd : OGRFieldDefn),
     defns h !! poDefnIn = Some d ->
     GetFieldDefn d iField = Some fd ->
     GetType fd = OFTString ->
     exists this h',
       new_OGRFeature poDefnIn h = Done (this, h') /\
       GetFieldAsString this iField h' = Done (CStr EmptyString)).
Proof.
  split; [|split].
  - intros h this iField f u Hf Hu.
    rewrite (GetFieldAsString_eq _ _ _ _ _ _ Hf), Hu. reflexivity.
  - intros h this iField. unfold GetFieldAsString.
    destruct (feature_at h this) as [f|]; [|discriminate]. rewrite bind_Done.
    destruct (field_type h f iField) as [ty|]; [|discriminate]. rewrite bind_Done.
    destruct (field_slot f iField) as [u|]; [|destruct ty; discriminate].
    destruct ty, u as [|n|x|[|c]]; discriminate.
  - intros h poDefnIn d iField fd Hd Hfd Hty.
    destruct (new_OGRFeature_field h poDefnIn d iField fd Hd Hfd)
      as (this & h' & f & Hnew & Hf & _).
    exists this, h'. split; [exact Hnew|].
    rewrite (GetFieldAsString_eq _ _ _ _ _ _ Hf), Hty. reflexivity.
Qed.



End FieldTheorems.

Section KindAndFrame.

Context {G : Type} `{OGRGeometry G}.

Implicit Types (h : heap G) (this : loc) (iField : Z) (f : OGRFeature)
  (ty : OGRFieldType) (u : OGRField.t).


Lemma field_of_index_nonneg h this iField f ty u :
  field_of h this iField f ty u -> 0 <= iField.
Proof.
  intros (_ & (d & fd & _ & Hfd & _) & _). unfold GetFieldDefn in Hfd.
  destruct (0 <=? iField) eqn:H0; [|discriminate]. apply Z.leb_le, H0.
Qed.

Lemma only_slot_changed_refl h this iField f :
  feats h !! this = Some f -> only_slot_changed h h this iField.
Proof.
  intros Hthis. unfold only_slot_changed.
  split; [reflexivity|]. split; [reflexivity|]. split; [reflexivity|].
  exists f, f. repeat split; auto.
Qed.

Lemma only_slot_changed_stored h this iField f ty u (u' : OGRField.t) :
  field_of h this iField f ty u ->
  only_slot_changed h (stored h this f iField u') this iField.
Proof.
  intros Hf. pose proof (field_of_index_nonneg _ _ _ _ _ _ Hf) as Hi.
  destruct Hf as (Hthis & _).
  unfold only_slot_changed, stored, with_feature. simpl.
  split; [reflexivity|]. split; [reflexivity|].
  split; [intros q Hq; apply lookup_insert_ne; congruence|].
  exists f, (with_slot f iField u'). simpl.
  split; [exact Hthis|]. split; [apply lookup_insert_eq|].
  repeat (split; [reflexivity|]).
  split; [apply length_insert|].
  intros j Hj Hne. apply list_lookup_insert_ne. lia.
Qed.

(** C10: on a valid index, each SetField changes at most the slot of that
    index: the other slots of the record, its identifier, its shape and its
    schema binding stay as they were, and so does everything else.  On a
    field whose kind is not Integer, Real or String it changes nothing. *)
Theorem SetField_changes_one_slot h this iField f ty u :
  field_of h this iField f ty u ->
  (forall (nValue : Z),
     exists h', SetField_int this iField nValue h = Done h' /\
                only_slot_changed h h' this iField) /\
  (forall (dfValue : Double.double) h',
     SetField_double this iField dfValue h = Done h' ->
     only_slot_changed h h' this iField) /\
  (forall (pszValue : cstring) h',
     SetField_string this iField pszValue h = Done h' ->
     only_slot_changed h h' this iField) /\
  (forall (puValue : OGRField.t) h',
     SetField_raw this iField puValue h = Done h' ->
     only_slot_changed h h' this iField) /\
  (handled ty = false ->
   (forall nValue, SetField_int this iField nValue h = Done h) /\
   (forall dfValue, SetField_double this iField dfValue h = Done h) /\
   (forall pszValue, SetField_string this iField pszValue h = Done h) /\
   (forall puValue, SetField_raw this iField puValue h = Done h)).
Proof.
  intros Hf.
  pose proof (fun u' => only_slot_changed_stored h this iField f ty u u' Hf) as Hst.
  pose proof (only_slot_changed_refl h this iField f (proj1 Hf)) as Hrefl.
  split; [|split; [|split; [|split]]].
  - intros nValue. rewrite (SetField_int_eq _ _ _ _ _ _ nValue Hf).
    destruct ty; eauto.
  - intros dfValue h'. rewrite (SetField_double_eq _ _ _ _ _ _ dfValue Hf).
    destruct ty; try (intros [= <-]; auto).
    destruct (Double.to_int dfValue); [|discriminate].
    rewrite bind_Done. intros [= <-]. auto.
  - intros pszValue h'. rewrite (SetField_string_eq _ _ _ _ _ _ pszValue Hf).
    destruct ty; try (intros [= <-]; auto).
    + destruct pszValue as [|c]; [discriminate|].
      destruct (Libc.atoi c); [|discriminate].
      rewrite bind_Done. intros [= <-]. auto.
    + destruct pszValue as [|c]; [discriminate|]. intros [= <-]. auto.
  - intros puValue h'. rewrite (SetField_raw_eq _ _ _ _ _ _ puValue Hf).
    destruct ty; try (intros [= <-]; auto).
    + destruct (OGRField.read_Integer puValue); [|discriminate].
      rewrite bind_Done. intros [= <-]. auto.
    + destruct (OGRField.read_Real puValue); [|discriminate].
      rewrite bind_Done. intros [= <-]. auto.
    + destruct (OGRField.read_String puValue); [|discriminate].
      rewrite bind_Done. intros [= <-]. auto.
  - intros Hty. repeat split; intros v.
    + rewrite (SetField_int_eq _ _ _ _ _ _ v Hf). destruct ty; try discriminate; reflexivity.
    + rewrite (SetField_double_eq _ _ _ _ _ _ v Hf). destruct ty; try discriminate; reflexivity.
    + rewrite (SetField_string_eq _ _ _ _ _ _ v Hf). destruct ty; try discriminate; reflexivity.
    + rewrite (SetField_raw_eq _ _ _ _ _ _ v Hf). destruct ty; try discriminate; reflexivity.
Qed.

End KindAndFrame.

(** ** Clone *)

Section CloneFacts.

Context {G : Type} `{OGRGeometry G}.

Implicit Types (h : heap G) (this poNew : loc) (iField : Z) (f : OGRFeature)
  (ty : OGRFieldType) (u : OGRField.t).

(** The copying setter calls [clone] through its argument: handed NULL by
    a live record whose own shape can be deleted, it dereferences NULL. *)
Lemma SetGeometry_NULL h this f :
  feats h !! this = Some f ->
  (forall p, poGeometry f = Some p -> is_Some (geoms h !! p)) ->
  SetGeometry this None h = Undefined NullDereference.
Proof.
  intros Hthis Hlive. unfold SetGeometry.
  rewrite (feature_at_live _ _ _ Hthis), bind_Done.
  unfold delete_geometry. destruct (poGeometry f) as [p|]; [|reflexivity].
  destruct (Hlive p eq_refl) as [g Hg].
  unfold geometry_at. rewrite Hg. reflexivity.
Qed.

(** C9: Clone hands the shape pointer of its record to the copying setter
    without looking at it, and the setter dereferences it.  So for every
    record that has no shape the shape-copy step of Clone dereferences
    NULL, and Clone returns a record only for a record that has a shape. *)
Theorem Clone_dereferences_absent_shape h this f :
  feats h !! this = Some f ->
  poGeometry f = None ->
  (is_Some (defns h !! poDefn f) ->
   exists poNew h1,
     new_OGRFeature (poDefn f) h = Done (poNew, h1) /\
     SetGeometry poNew (poGeometry f) h1 = Undefined NullDereference /\
     Clone this h = Undefined NullDereference) /\
  (forall r, Clone this h <> Done r).
Proof.
  intros Hthis Hnone.
  assert (Hstep : is_Some (defns h !! poDefn f) ->
    exists poNew h1,
      new_OGRFeature (poDefn f) h = Done (poNew, h1) /\
      SetGeometry poNew (poGeometry f) h1 = Undefined NullDereference /\
      Clone this h = Undefined NullDereference).
  { intros [d Hd].
    assert (Hnew : exists poNew h1 fn,
               new_OGRFeature (poDefn f) h = Done (poNew, h1) /\
               feats h1 !! poNew = Some fn /\ poGeometry fn = None).
    { unfold new_OGRFeature, defn_at. rewrite Hd. simpl.
      eexists _, _, _. split; [reflexivity|]. simpl.
      split; [apply lookup_insert_eq | reflexivity]. }
    destruct Hnew as (poNew & h1 & fn & Hnew & Hfn & Hgn).
    assert (Hset : SetGeometry poNew (poGeometry f) h1 = Undefined NullDereference).
    { rewrite Hnone. apply (SetGeometry_NULL h1 poNew fn Hfn).
      intros p Hp. congruence. }
    exists poNew, h1. split; [exact Hnew|]. split; [exact Hset|].
    unfold Clone. rewrite (feature_at_live _ _ _ Hthis), bind_Done.
    rewrite Hnew, bind_Done. rewrite Hset. reflexivity. }
  split; [exact Hstep|].
  intros r Hr. destruct (defns h !! poDefn f) as [d|] eqn:Hd.
  - destruct (Hstep (ex_intro _ d eq_refl)) as (_ & _ & _ & _ & Hc). congruence.
  - unfold Clone in Hr. rewrite (feature_at_live _ _ _ Hthis), bind_Done in Hr.
    unfold new_OGRFeature, defn_at in Hr. rewrite Hd in Hr. discriminate Hr.
Qed.

End CloneFacts.

(** C1 (the code departs from it): the record f1 of the scenario, built
    with NAME="Lot A", COUNT=5, AREA=12.5 and identifier 100 and never
    given a shape, is a live record, yet Clone does not yield a record for
    it: the shape-copy step dereferences the NULL shape pointer. *)
Theorem Clone_of_scenario_record_is_undefined :
  exists (f1 : loc) (h : heap OGRPoint) (f : OGRFeature),
    build_f1 = Done (f1, h) /\
    feats h !! f1 = Some f /\
    poGeometry f = None /\
    Clone f1 h = Undefined NullDereference.
Proof.
  eexists _, _, _. split; [vm_compute; reflexivity|].
  split; [vm_compute; reflexivity|].
  split; [reflexivity|].
  vm_compute. reflexivity.
Qed.

(** ** The theorems at the records of the scenario *)

Lemma lots_field_0 :
  field_of lots 1%positive 0 lot_a OFTString (OGRField.String (CStr "Lot A")).
Proof.
  split; [reflexivity|]. split; [|split; reflexivity].
  eexists _, _. split; [reflexivity|]. split; reflexivity.
Defined.

Lemma lots_field_1 :
  field_of lots 1%positive 1 lot_a OFTInteger (OGRField.Integer 5).
Proof.
  split; [reflexivity|]. split; [|split; reflexivity].
  eexists _, _. split; [reflexivity|]. split; reflexivity.
Defined.

Lemma lots_field_2 :
  field_of lots 1%positive 2 lot_a OFTReal (OGRField.Real (Double.atof "12.5")).
Proof.
  split; [reflexivity|]. split; [|split; reflexivity].
  eexists _, _. split; [reflexivity|]. split; reflexivity.
Defined.

Lemma lots_field_codes :
  field_of lots 5%positive 0 codes_e OFTIntegerList OGRField.Zeroed.
Proof.
  split; [reflexivity|]. split; [|split; reflexivity].
  eexists _, _. split; [reflexivity|]. split; reflexivity.
Defined.

Lemma Equal_ignores_field_values_witness :
  pauFields lot_a <> pauFields lot_b /\ Equal 1%positive 2%positive lots = Done TRUE.
Proof.
  split; [discriminate|].
  apply (Equal_ignores_field_values lots 1%positive 2%positive lot_a lot_b);
    [discriminate | reflexivity ..].
Defined.

Lemma Equal_shape_check_asymmetric_witness :
  Equal 2%positive 3%positive lots = Done TRUE /\
  Equal 3%positive 2%positive lots = Done FALSE.
Proof.
  split.
  - apply (Equal_shape_check_asymmetric lots 2%positive 3%positive lot_b lot_c);
      reflexivity.
  - refine (proj2 (Equal_shape_check_asymmetric lots 3%positive 2%positive lot_c lot_b
                     eq_refl eq_refl eq_refl eq_refl)
                  1%positive {| getX := 3; getY := 4 |} _ eq_refl eq_refl _).
    + discriminate.
    + intros q Hq. discriminate Hq.
Defined.

Lemma Equal_false_on_different_identifiers_witness :
  pauFields lot_a = pauFields lot_d /\ Equal 1%positive 4%positive lots = Done FALSE.
Proof.
  split; [reflexivity|].
  apply (Equal_false_on_different_identifiers lots 1%positive 4%positive lot_a lot_d);
    [discriminate | reflexivity | reflexivity | discriminate].
Defined.

Lemma lots_field_unset :
  field_of lots 2%positive 0 lot_b OFTString OGRField.Zeroed.
Proof.
  split; [reflexivity|]. split; [|split; reflexivity].
  eexists _, _. split; [reflexivity|]. split; reflexivity.
Defined.

Lemma GetFieldAsString_unset_is_empty_witness :
  GetFieldAsString 2%positive 0 lots = Done (CStr EmptyString) /\
  exists this h',
    new_OGRFeature 1%positive lot_heap = Done (this, h') /\
    GetFieldAsString this 0 h' = Done (CStr EmptyString).
Proof.
  split.
  - exact (proj1 GetFieldAsString_unset_is_empty lots 2%positive 0 lot_b
                 OGRField.Zeroed lots_field_unset eq_refl).
  - exact (proj2 (proj2 GetFieldAsString_unset_is_empty) lot_heap 1%positive lot_defn 0
                 {| GetNameRef := "NAME"; GetType := OFTString |}
                 eq_refl eq_refl eq_refl).
Defined.






Lemma Clone_dereferences_absent_shape_witness :
  Clone 1%positive lots = Undefined NullDereference /\
  forall r, Clone 1%positive lots <> Done r.
Proof.
  destruct (Clone_dereferences_absent_shape lots 1%positive lot_a eq_refl eq_refl)
    as (Hstep & Hnever).
  split; [|exact Hnever].
  destruct (Hstep (ex_intro _ _ eq_refl)) as (poNew & h1 & _ & _ & Hclone).
  exact Hclone.
Defined.

Lemma SetField_changes_one_slot_witness :
  (exists h', SetField_int 1%positive 1 9 lots = Done h' /\
              only_slot_changed lots h' 1%positive 1) /\
  SetField_double 5%positive 0 (Double.atof "1.5") lots = Done lots.
Proof.
  split.
  - exact (proj1 (SetField_changes_one_slot lots 1%positive 1 lot_a _ _ lots_field_1) 9).
  - destruct (SetField_changes_one_slot lots 5%positive 0 codes_e _ _ lots_field_codes)
      as (_ & _ & _ & _ & Hnoop).
    exact (proj1 (proj2 (Hnoop eq_refl)) (Double.atof "1.5")).
Defined.

(** ** Clone of a record that has a shape *)

Section CloneOfShaped.

Context {G : Type} `{OGRGeometry G}.

Implicit Types (h : heap G) (this poNew : loc) (iField : Z) (f fn : OGRFeature)
  (ty : OGRFieldType) (u : OGRField.t) (d : OGRFeatureDefn).

Lemma new_OGRFeature_eq h (poDefnIn : loc) d :
  defns h !! poDefnIn = Some d ->
  new_OGRFeature poDefnIn h =
    Done (fresh (dom (feats h)),
          {| defns := <[poDefnIn := Reference d]> (defns h);
             geoms := geoms h;
             feats := <[fresh (dom (feats h)) :=
               {| poDefn := poDefnIn;
                  nFID := OGRNullFID;
                  poGeometry := None;
                  pauFields := replicate (length (papoFieldDefn d)) OGRField.Zeroed |}]>
               (feats h) |}).
Proof.
  intros Hd. unfold new_OGRFeature, defn_at. rewrite Hd. simpl.
  unfold GetFieldCount. simpl. rewrite Nat2Z.id. reflexivity.
Qed.

Lemma SetGeometry_eq h this f (p : loc) (g : G) :
  feats h !! this = Some f ->
  poGeometry f = None ->
  geoms h !! p = Some g ->
  SetGeometry this (Some p) h =
    Done (OGRERR_NONE,
          {| defns := defns h;
             geoms := <[fresh (dom (geoms h)) := OGRGeometry_clone g]> (geoms h);
             feats := <[this := with_geometry f (Some (fresh (dom (geoms h))))]> (feats h) |}).
Proof.
  intros Hthis Hnone Hg. unfold SetGeometry.
  rewrite (feature_at_live _ _ _ Hthis), bind_Done.
  unfold delete_geometry. rewrite Hnone. simpl. rewrite Hg. reflexivity.
Qed.

(** One turn of the loop: a source slot that follows its kind is copied
    into a destination slot that is still zeroed. *)
Lemma SetField_raw_copies h poNew iField fn ty u :
  field_of h poNew iField fn ty OGRField.Zeroed ->
  slot_matches ty u = true ->
  exists h1 fn1,
    SetField_raw poNew iField u h = Done h1 /\
    only_slot_changed h h1 poNew iField /\
    feats h1 !! poNew = Some fn1 /\
    pauFields fn1 !! Z.to_nat iField = Some (copy_of ty u).
Proof.
  intros Hf Hm. rewrite (SetField_raw_eq _ _ _ _ _ _ u Hf).
  assert (Hlt : (Z.to_nat iField < length (pauFields fn))%nat).
  { apply lookup_lt_Some with OGRField.Zeroed. apply Hf. }
  assert (Hst : forall u' : OGRField.t, exists h1 fn1,
             Done (stored h poNew fn iField u') = Done h1 /\
             only_slot_changed h h1 poNew iField /\
             feats h1 !! poNew = Some fn1 /\
             pauFields fn1 !! Z.to_nat iField = Some u').
  { intros u'. exists (stored h poNew fn iField u'), (with_slot fn iField u').
    split; [reflexivity|].
    split; [apply (only_slot_changed_stored _ _ _ _ _ _ _ Hf)|].
    split; [apply lookup_insert_eq|].
    simpl. apply list_lookup_insert_eq, Hlt. }
  assert (Hid : exists h1 fn1,
             Done h = Done h1 /\
             only_slot_changed h h1 poNew iField /\
             feats h1 !! poNew = Some fn1 /\
             pauFields fn1 !! Z.to_nat iField = Some OGRField.Zeroed).
  { exists h, fn. split; [reflexivity|].
    split; [apply (only_slot_changed_refl _ _ _ fn), Hf|].
    split; apply Hf. }
  destruct ty, u; simpl in Hm; try discriminate; simpl;
    first [apply Hst | apply Hid].
Qed.

Lemma GetFieldDefn_lookup d (i : nat) (fd : OGRFieldDefn) :
  papoFieldDefn d !! i = Some fd -> GetFieldDefn d (Z.of_nat i) = Some fd.
Proof.
  intros Hfd. unfold GetFieldDefn, GetFieldCount.
  pose proof (lookup_lt_Some _ _ _ Hfd) as Hlt.
  replace ((0 <=? Z.of_nat i) && (Z.of_nat i <? Z.of_nat (length (papoFieldDefn d))))
    with true.
  - rewrite Nat2Z.id. exact Hfd.
  - symmetry. apply andb_true_iff. split; [apply Z.leb_le | apply Z.ltb_lt]; lia.
Qed.

Lemma only_slot_changed_other h h1 poNew (i j : nat) fn fn1 :
  only_slot_changed h h1 poNew (Z.of_nat i) ->
  feats h !! poNew = Some fn ->
  feats h1 !! poNew = Some fn1 ->
  j <> i ->
  pauFields fn1 !! j = pauFields fn !! j.
Proof.
  intros (_ & _ & _ & f0 & f1 & H0 & H1 & _ & _ & _ & _ & Hslots) Hfn Hfn1 Hne.
  assert (f0 = fn) by congruence. assert (f1 = fn1) by congruence. subst.
  specialize (Hslots (Z.of_nat j)). rewrite Nat2Z.id in Hslots.
  apply Hslots; lia.
Qed.

(** The loop of Clone, about to copy field [i] with [n] fields to go,
    into a record whose slots from [i] on are still zeroed. *)
Lemma Clone_fields_copies this poNew f d :
  this <> poNew ->
  Forall2 (fun fd u => slot_matches (GetType fd) u = true)
          (papoFieldDefn d) (pauFields f) ->
  forall (n i : nat) h fn,
    (i + n = length (papoFieldDefn d))%nat ->
    feats h !! this = Some f ->
    feats h !! poNew = Some fn ->
    poDefn fn = poDefn f ->
    defns h !! poDefn f = Some d ->
    length (pauFields fn) = length (papoFieldDefn d) ->
    (forall j, (i <= j)%nat -> (j < length (papoFieldDefn d))%nat ->
               pauFields fn !! j = Some OGRField.Zeroed) ->
    exists h' fn',
      Clone_fields this poNew (Z.of_nat i) n h = Done h' /\
      defns h' = defns h /\
      geoms h' = geoms h /\
      (forall q : loc, q <> poNew -> feats h' !! q = feats h !! q) /\
      feats h' !! poNew = Some fn' /\
      poDefn fn' = poDefn fn /\
      nFID fn' = nFID fn /\
      poGeometry fn' = poGeometry fn /\
      (forall j, (j < i)%nat -> pauFields fn' !! j = pauFields fn !! j) /\
      (forall j fd u, (i <= j)%nat ->
         papoFieldDefn d !! j = Some fd ->
         pauFields f !! j = Some u ->
         pauFields fn' !! j = Some (copy_of (GetType fd) u)).
Proof.
  intros Hne Hall. induction n as [|n IH]; intros i h fn Hin Hthis Hnew Hdefn Hd Hlen Hzero.
  - exists h, fn. simpl.
    do 4 (split; [reflexivity|]). split; [exact Hnew|].
    do 3 (split; [reflexivity|]). split; [reflexivity|].
    intros j fd u Hij Hfd _. apply lookup_lt_Some in Hfd. lia.
  - assert (Hi : (i < length (papoFieldDefn d))%nat) by lia.
    destruct (lookup_lt_is_Some_2 _ _ Hi) as [fd Hfd].
    destruct (Forall2_lookup_l _ _ _ _ _ Hall Hfd) as (u & Hu & Hm).
    assert (Hf : field_of h poNew (Z.of_nat i) fn (GetType fd) OGRField.Zeroed).
    { split; [exact Hnew|]. split.
      - exists d, fd. rewrite Hdefn. split; [exact Hd|].
        split; [apply GetFieldDefn_lookup, Hfd | reflexivity].
      - rewrite Nat2Z.id. split; [apply Hzero; lia | reflexivity]. }
    destruct (SetField_raw_copies h poNew (Z.of_nat i) fn (GetType fd) u Hf Hm)
      as (h1 & fn1 & Hset & Hframe & Hnew1 & Hslot).
    rewrite Nat2Z.id in Hslot.
    pose proof Hframe as (Hdefns1 & Hgeoms1 & Hothers1 & f0 & f1 & H0 & H1 &
                          Hpd & Hfid & Hgeo & Hlen1 & _).
    assert (f0 = fn) by congruence. assert (f1 = fn1) by congruence. subst f0 f1.
    destruct (IH (S i) h1 fn1) as (h' & fn' & Hrun & Hdefns' & Hgeoms' & Hothers' &
                                   Hnew' & Hpd' & Hfid' & Hgeo' & Hbelow & Habove).
    + lia.
    + rewrite Hothers1 by exact Hne. exact Hthis.
    + exact Hnew1.
    + congruence.
    + rewrite Hdefns1. exact Hd.
    + congruence.
    + intros j Hj Hjlt.
      rewrite (only_slot_changed_other h h1 poNew i j fn fn1 Hframe Hnew Hnew1) by lia.
      apply Hzero; lia.
    + exists h', fn'. split.
      { cbn [Clone_fields]. rewrite (feature_at_live _ _ _ Hthis), bind_Done.
        unfold field_slot. rewrite Nat2Z.id, Hu. cbn [from_option]. rewrite bind_Done.
        rewrite Hset, bind_Done.
        replace (Z.of_nat i + 1) with (Z.of_nat (S i)) by lia. exact Hrun. }
      split; [congruence|]. split; [congruence|].
      split; [intros q Hq; rewrite Hothers', Hothers1 by exact Hq; reflexivity|].
      split; [exact Hnew'|].
      split; [congruence|]. split; [congruence|]. split; [congruence|].
      split.
      * intros j Hj. rewrite Hbelow by lia.
        apply (only_slot_changed_other h h1 poNew i j fn fn1 Hframe Hnew Hnew1). lia.
      * intros j fd' u' Hij Hfd' Hu'.
        destruct (decide (j = i)) as [->|Hji].
        -- rewrite Hbelow by lia. rewrite Hslot. congruence.
        -- apply (Habove j fd' u'); [lia | assumption | assumption].
Qed.

End CloneOfShaped.

Section CloneTheorem.

Context {G : Type} `{OGRGeometryLaws G}.

Implicit Types (h : heap G) (this poNew : loc) (iField : Z) (f fn : OGRFeature)
  (ty : OGRFieldType) (u : OGRField.t) (d : OGRFeatureDefn).

Lemma copy_of_matches ty u : slot_matches ty (copy_of ty u) = true.
Proof. destruct ty, u; reflexivity. Qed.

(** Through every typed getter a copied slot reads as its source does. *)
Lemma getters_agree_on_copy h h' this poNew iField f fn ty u :
  field_of h this iField f ty u ->
  field_of h' poNew iField fn ty (copy_of ty u) ->
  GetFieldAsInteger poNew iField h' = GetFieldAsInteger this iField h /\
  GetFieldAsDouble poNew iField h' = GetFieldAsDouble this iField h /\
  GetFieldAsString poNew iField h' = GetFieldAsString this iField h.
Proof.
  intros Hsrc Hdst.
  rewrite (GetFieldAsInteger_eq _ _ _ _ _ _ Hsrc), (GetFieldAsInteger_eq _ _ _ _ _ _ Hdst).
  rewrite (GetFieldAsDouble_eq _ _ _ _ _ _ Hsrc), (GetFieldAsDouble_eq _ _ _ _ _ _ Hdst).
  rewrite (GetFieldAsString_eq _ _ _ _ _ _ Hsrc), (GetFieldAsString_eq _ _ _ _ _ _ Hdst).
  pose proof (proj2 (proj2 (proj2 Hsrc))) as Hm.
  destruct ty, u as [|n|x|[|c]]; simpl in Hm; try discriminate; repeat split; reflexivity.
Qed.

Lemma field_of_index h this iField f ty u d :
  field_of h this iField f ty u ->
  defns h !! poDefn f = Some d ->
  exists fd, papoFieldDefn d !! Z.to_nat iField = Some fd /\
             GetFieldDefn d iField = Some fd /\ GetType fd = ty.
Proof.
  intros (_ & (d0 & fd & Hd0 & Hfd & Hty) & _) Hd.
  assert (d0 = d) by congruence. subst d0.
  exists fd. split; [|split; assumption].
  unfold GetFieldDefn in Hfd.
  destruct ((0 <=? iField) && (iField <? GetFieldCount d)); [exact Hfd | discriminate].
Qed.

(** For a well-formed record that has a shape, Clone yields a new record
    on the same schema instance, with the null identifier, with a shape of
    its own that is a duplicate of the original's, and with fields that
    read as the original's do; the original is left as it was. *)
Theorem Clone_of_record_with_shape h this f (p : loc) :
  feats h !! this = Some f ->
  feature_ok h f ->
  poGeometry f = Some p ->
  exists poNew h' f' (q : loc) (g g' : G),
    Clone this h = Done (poNew, h') /\
    feats h !! poNew = None /\
    feats h' !! this = Some f /\
    feats h' !! poNew = Some f' /\
    poDefn f' = poDefn f /\
    nFID f' = OGRNullFID /\
    poGeometry f' = Some q /\
    q <> p /\
    geoms h !! p = Some g /\
    geoms h' !! p = Some g /\
    geoms h' !! q = Some g' /\
    OGRGeometry_Equal g (Some g') = TRUE /\
    (forall g'' : G, <[q := g'']> (geoms h') !! p = Some g) /\
    (forall iField ty u,
       field_of h this iField f ty u ->
       GetFieldAsInteger poNew iField h' = GetFieldAsInteger this iField h /\
       GetFieldAsDouble poNew iField h' = GetFieldAsDouble this iField h /\
       GetFieldAsString poNew iField h' = GetFieldAsString this iField h).
Proof.
  intros Hthis ((d & Hd & Hall) & Hlive) Hp.
  destruct (Hlive p Hp) as [g Hg].
  set (poNew := fresh (dom (feats h))).
  set (q := fresh (dom (geoms h))).
  assert (Hfresh : feats h !! poNew = None) by (apply not_elem_of_dom, is_fresh).
  assert (Hqfresh : geoms h !! q = None) by (apply not_elem_of_dom, is_fresh).
  assert (Hne : this <> poNew) by congruence.
  assert (Hqp : q <> p) by congruence.
  set (f0 := {| poDefn := poDefn f; nFID := OGRNullFID; poGeometry := None;
                pauFields := replicate (length (papoFieldDefn d)) OGRField.Zeroed |}).
  set (h1 := {| defns := <[poDefn f := Reference d]> (defns h);
                geoms := geoms h;
                feats := <[poNew := f0]> (feats h) |}).
  set (h2 := {| defns := defns h1;
                geoms := <[q := OGRGeometry_clone g]> (geoms h1);
                feats := <[poNew := with_geometry f0 (Some q)]> (feats h1) |}).
  assert (Hclone : Clone this h = Clone_fields this poNew 0 (length (papoFieldDefn d)) h2
                                  ≫= (fun h3 => Done (poNew, h3))).
  { unfold Clone. rewrite (feature_at_live _ _ _ Hthis), bind_Done.
    rewrite (new_OGRFeature_eq h (poDefn f) d Hd), bind_Done.
    fold poNew f0 h1. cbv beta iota. rewrite Hp.
    rewrite (SetGeometry_eq h1 poNew f0 p g);
      [|apply lookup_insert_eq | reflexivity | exact Hg].
    rewrite bind_Done. change (fresh (dom (geoms h1))) with q. fold h2.
    cbv beta iota.
    assert (Hd2 : defn_at h2 (poDefn f) = Done (Reference d)).
    { unfold defn_at. simpl. rewrite lookup_insert_eq. reflexivity. }
    rewrite Hd2, bind_Done. unfold GetFieldCount. simpl. rewrite Nat2Z.id.
    reflexivity. }
  destruct (Clone_fields_copies this poNew f (Reference d) Hne Hall
              (length (papoFieldDefn d)) 0%nat h2 (with_geometry f0 (Some q)))
    as (h' & f' & Hrun & Hdefns & Hgeoms & Hothers & Hnew & Hpd & Hfid & Hgeo & _ & Hcopied).
  { reflexivity. }
  { simpl. rewrite !lookup_insert_ne by congruence. exact Hthis. }
  { simpl. apply lookup_insert_eq. }
  { reflexivity. }
  { simpl. apply lookup_insert_eq. }
  { simpl. apply length_replicate. }
  { intros j _ Hj. simpl. apply lookup_replicate_2. exact Hj. }
  exists poNew, h', f', q, g, (OGRGeometry_clone g).
  change (Z.of_nat 0) with 0 in Hrun. rewrite Hclone, Hrun, bind_Done.
  split; [reflexivity|]. split; [exact Hfresh|].
  assert (Hthis' : feats h' !! this = Some f).
  { rewrite Hothers by exact Hne. simpl. rewrite !lookup_insert_ne by congruence.
    exact Hthis. }
  assert (Hp' : geoms h' !! p = Some g).
  { rewrite Hgeoms. simpl. rewrite lookup_insert_ne by exact Hqp. exact Hg. }
  split; [exact Hthis'|]. split; [exact Hnew|].
  split; [rewrite Hpd; reflexivity|]. split; [rewrite Hfid; reflexivity|].
  split; [rewrite Hgeo; reflexivity|]. split; [exact Hqp|].
  split; [exact Hg|]. split; [exact Hp'|].
  split; [rewrite Hgeoms; simpl; apply lookup_insert_eq|].
  split; [apply clone_Equal|].
  split; [intros g''; rewrite lookup_insert_ne by exact Hqp; exact Hp'|].
  intros iField ty u Hsrc.
  apply (getters_agree_on_copy h h' this poNew iField f f' ty u Hsrc).
  destruct (field_of_index h this iField f ty u d Hsrc Hd) as (fd & Hfd & Hget & Hty).
  destruct Hsrc as (_ & _ & Hu & _).
  split; [exact Hnew|]. split.
  - exists (Reference d), fd. rewrite Hpd, Hdefns. simpl.
    split; [apply lookup_insert_eq|]. split; [exact Hget | exact Hty].
  - split; [|apply copy_of_matches].
    rewrite <- Hty. apply (Hcopied (Z.to_nat iField) fd u); [lia | exact Hfd | exact Hu].
Qed.

End CloneTheorem.

#[global] Instance OGRPoint_laws : OGRGeometryLaws OGRPoint.
Proof.
  constructor. intros [x y]. simpl. rewrite !Z.eqb_refl. reflexivity.
Qed.

Lemma lot_c_ok : feature_ok lots lot_c.
Proof.
  split.
  - eexists. split; [reflexivity|]. simpl. repeat constructor.
  - intros p [= <-]. eexists. reflexivity.
Defined.

(** The clone of [lot_c], which has a shape: a second record, unequal to
    the first because it has no identifier. *)
Lemma Clone_of_record_with_shape_witness :
  exists poNew h',
    Clone 3%positive lots = Done (poNew, h') /\
    poNew <> 3%positive /\
    GetFieldAsString poNew 0 h' = Done (CStr "Lot A") /\
    GetFieldAsInteger poNew 1 h' = Done 5 /\
    GetFieldAsDouble poNew 2 h' = Done (Double.atof "12.5") /\
    GetFID poNew h' = Done OGRNullFID /\
    Equal 3%positive poNew h' = Done FALSE.
Proof.
  destruct (Clone_of_record_with_shape lots 3%positive lot_c 1%positive
              eq_refl lot_c_ok eq_refl)
    as (poNew & h' & f' & q & g & g' & Hclone & _).
  vm_compute in Hclone. injection Hclone as <- <-.
  eexists _, _. split; [vm_compute; reflexivity|].
  split; [discriminate|]. repeat split; vm_compute; reflexivity.
Defined.

(** ** The constructor, the identifier and the shape setters *)

Section RecordFacts.

Context {G : Type} `{OGRGeometry G}.

Implicit Types (h : heap G) (this : loc) (iField : Z) (f : OGRFeature)
  (d : OGRFeatureDefn).

Lemma feature_ok_same h h' f :
  defns h' = defns h -> geoms h' = geoms h -> feature_ok h f -> feature_ok h' f.
Proof. unfold feature_ok. intros -> ->. auto. Qed.

Lemma zeroed_slots_match (fds : list OGRFieldDefn) :
  Forall2 (fun fd u => slot_matches (GetType fd) u = true)
          fds (replicate (length fds) OGRField.Zeroed).
Proof. induction fds; simpl; constructor; auto. Qed.

(** What the typed getters read depends on the schemas, and on the schema
    pointer and the slots of the record; on nothing else. *)
Lemma getters_depend_on h h' this f f' iField :
  feats h !! this = Some f ->
  feats h' !! this = Some f' ->
  defns h' = defns h ->
  poDefn f' = poDefn f ->
  pauFields f' = pauFields f ->
  GetFieldAsInteger this iField h' = GetFieldAsInteger this iField h /\
  GetFieldAsDouble this iField h' = GetFieldAsDouble this iField h /\
  GetFieldAsString this iField h' = GetFieldAsString this iField h.
Proof.
  intros Hf Hf' Hd Hp Hs.
  unfold GetFieldAsInteger, GetFieldAsDouble, GetFieldAsString.
  rewrite !(feature_at_live _ _ _ Hf), !(feature_at_live _ _ _ Hf'), !bind_Done.
  unfold field_type, defn_at, field_slot. rewrite Hd, Hp, Hs. auto.
Qed.

(** The record the constructor makes is well formed, and the records
    that were there are still there. *)
Lemma new_OGRFeature_adds h (poDefnIn : loc) d :
  defns h !! poDefnIn = Some d ->
  exists this h' f,
    new_OGRFeature poDefnIn h = Done (this, h') /\
    feats h' !! this = Some f /\
    defns h' = <[poDefnIn := Reference d]> (defns h) /\
    geoms h' = geoms h /\
    (forall q : loc, q <> this -> feats h' !! q = feats h !! q) /\
    feature_ok h' f.
Proof.
  intros Hd. rewrite (new_OGRFeature_eq h poDefnIn d Hd).
  eexists _, _, _. split; [reflexivity|].
  split; [apply lookup_insert_eq|].
  do 2 (split; [reflexivity|]).
  split; [intros q Hq; simpl; apply lookup_insert_ne; congruence|].
  split.
  - exists (Reference d). simpl. split; [apply lookup_insert_eq|].
    apply zeroed_slots_match.
  - intros p Hp. discriminate Hp.
Qed.

(** X1: constructing a record against a live schema yields a record at
    an address that was free, bound to that schema, with the null
    identifier, no shape and as many slots as the schema has fields, all
    of them zeroed; the schema has one holder more, and nothing else in
    the heap has changed.  The new record is well formed. *)
Theorem new_OGRFeature_state h (poDefnIn : loc) d :
  defns h !! poDefnIn = Some d ->
  exists this h' f,
    new_OGRFeature poDefnIn h = Done (this, h') /\
    feats h !! this = None /\
    feats h' !! this = Some f /\
    poDefn f = poDefnIn /\
    nFID f = OGRNullFID /\
    poGeometry f = None /\
    Z.of_nat (length (pauFields f)) = GetFieldCount d /\
    Forall (eq OGRField.Zeroed) (pauFields f) /\
    defns h' = <[poDefnIn := Reference d]> (defns h) /\
    nRefCount (Reference d) = nRefCount d + 1 /\
    geoms h' = geoms h /\
    (forall q : loc, q <> this -> feats h' !! q = feats h !! q) /\
    feature_ok h' f.
Proof.
  intros Hd. rewrite (new_OGRFeature_eq h poDefnIn d Hd).
  eexists _, _, _. split; [reflexivity|].
  split; [apply not_elem_of_dom, is_fresh|].
  split; [apply lookup_insert_eq|].
  do 3 (split; [reflexivity|]).
  split; [simpl; rewrite length_replicate; reflexivity|].
  split; [simpl; apply Forall_replicate; reflexivity|].
  do 3 (split; [reflexivity|]).
  split; [intros q Hq; simpl; apply lookup_insert_ne; congruence|].
  split.
  - exists (Reference d). simpl. split; [apply lookup_insert_eq|].
    apply zeroed_slots_match.
  - intros p Hp. discriminate Hp.
Qed.

(** X2: SetFID assigns any identifier, negative ones and the null
    sentinel included, and reports OGRERR_NONE; GetFID then returns that
    identifier.  The schema binding, the shape and the slots of the record
    stay as they were, as does the rest of the heap, and every typed
    getter reads what it read before. *)
Theorem SetFID_then_GetFID h this f (nFIDIn : Z) :
  feats h !! this = Some f ->
  exists h',
    SetFID this nFIDIn h = Done (OGRERR_NONE, h') /\
    GetFID this h' = Done nFIDIn /\
    feats h' !! this = Some {| poDefn := poDefn f; nFID := nFIDIn;
                               poGeometry := poGeometry f;
                               pauFields := pauFields f |} /\
    defns h' = defns h /\
    geoms h' = geoms h /\
    (forall q : loc, q <> this -> feats h' !! q = feats h !! q) /\
    (forall iField,
       GetFieldAsInteger this iField h' = GetFieldAsInteger this iField h /\
       GetFieldAsDouble this iField h' = GetFieldAsDouble this iField h /\
       GetFieldAsString this iField h' = GetFieldAsString this iField h).
Proof.
  intros Hthis. unfold SetFID. rewrite (feature_at_live _ _ _ Hthis), bind_Done.
  eexists. split; [reflexivity|].
  assert (Hnew : feats (with_feature h this
                    {| poDefn := poDefn f; nFID := nFIDIn;
                       poGeometry := poGeometry f; pauFields := pauFields f |})
                 !! this
                 = Some {| poDefn := poDefn f; nFID := nFIDIn;
                           poGeometry := poGeometry f; pauFields := pauFields f |})
    by apply lookup_insert_eq.
  split; [unfold GetFID; rewrite (feature_at_live _ _ _ Hnew); reflexivity|].
  split; [exact Hnew|]. do 2 (split; [reflexivity|]).
  split; [intros q Hq; simpl; apply lookup_insert_ne; congruence|].
  intros iField.
  apply (getters_depend_on h _ this f _ iField Hthis Hnew); reflexivity.
Qed.

(** X3: SetGeometry, handed a live geometry that is not the record's own
    shape, deletes the shape the record had, if any, and gives the record
    a duplicate of the geometry at an address of its own.  The geometry
    handed in stays alive and unchanged; OGRERR_NONE is reported; the
    identifier, the slots and the schema binding stay as they were. *)
Theorem SetGeometry_stores_a_duplicate h this f (p : loc) (g : G) :
  feats h !! this = Some f ->
  (forall o, poGeometry f = Some o -> is_Some (geoms h !! o)) ->
  geoms h !! p = Some g ->
  poGeometry f <> Some p ->
  exists (q : loc) h',
    SetGeometry this (Some p) h = Done (OGRERR_NONE, h') /\
    q <> p /\
    feats h' !! this = Some (with_geometry f (Some q)) /\
    geoms h' !! q = Some (OGRGeometry_clone g) /\
    geoms h' !! p = Some g /\
    (forall o, poGeometry f = Some o -> o <> q -> geoms h' !! o = None) /\
    (forall o, poGeometry f <> Some o -> o <> q -> geoms h' !! o = geoms h !! o) /\
    defns h' = defns h /\
    (forall r : loc, r <> this -> feats h' !! r = feats h !! r).
Proof.
  intros Hthis Hlive Hg Hown. unfold SetGeometry.
  rewrite (feature_at_live _ _ _ Hthis), bind_Done.
  assert (Hdel : exists gs,
             delete_geometry h f = Done gs /\
             gs !! p = Some g /\
             (forall o, poGeometry f = Some o -> gs !! o = None) /\
             (forall o, poGeometry f <> Some o -> gs !! o = geoms h !! o)).
  { unfold delete_geometry. destruct (poGeometry f) as [o|] eqn:Ho.
    - destruct (Hlive o eq_refl) as [go Hgo]. unfold geometry_at. rewrite Hgo.
      exists (delete o (geoms h)). split; [reflexivity|].
      split; [rewrite lookup_delete_ne by congruence; exact Hg|].
      split.
      + intros o' [= <-]. apply lookup_delete_eq.
      + intros o' Hne. apply lookup_delete_ne. congruence.
    - exists (geoms h). split; [reflexivity|]. split; [exact Hg|].
      split; [intros o' Ho'; discriminate Ho' | reflexivity]. }
  destruct Hdel as (gs & -> & Hgp & Hold & Hrest). rewrite bind_Done.
  cbn [from_option]. rewrite bind_Done, Hgp. cbn [from_option]. rewrite bind_Done.
  set (q := fresh (dom gs)).
  assert (Hq : gs !! q = None) by (apply not_elem_of_dom, is_fresh).
  assert (Hqp : q <> p) by congruence.
  exists q. eexists. split; [reflexivity|]. split; [exact Hqp|]. simpl.
  split; [apply lookup_insert_eq|].
  split; [apply lookup_insert_eq|].
  split; [rewrite lookup_insert_ne by exact Hqp; exact Hgp|].
  split.
  { intros o Ho Hoq. rewrite lookup_insert_ne by congruence. apply Hold, Ho. }
  split.
  { intros o Ho Hoq. rewrite lookup_insert_ne by congruence. apply Hrest, Ho. }
  split; [reflexivity|].
  intros r Hr. apply lookup_insert_ne. congruence.
Qed.

End RecordFacts.

Section ShapeOwnership.

Context {G : Type} `{OGRGeometry G}.

Implicit Types (h : heap G) (this : loc) (iField : Z) (f : OGRFeature)
  (d : OGRFeatureDefn).

Lemma delete_geometry_live h f :
  (forall o, poGeometry f = Some o -> is_Some (geoms h !! o)) ->
  delete_geometry h f =
    Done match poGeometry f with
         | Some o => delete o (geoms h)
         | None => geoms h
         end.
Proof.
  intros Hlive. unfold delete_geometry. destruct (poGeometry f) as [o|]; [|reflexivity].
  destruct (Hlive o eq_refl) as [g Hg]. unfold geometry_at. rewrite Hg. reflexivity.
Qed.

Lemma SetGeometryDirectly_eq h this f (poGeomIn : option loc) :
  feats h !! this = Some f ->
  (forall o, poGeometry f = Some o -> is_Some (geoms h !! o)) ->
  SetGeometryDirectly this poGeomIn h =
    Done (OGRERR_NONE,
          {| defns := defns h;
             geoms := match poGeometry f with
                      | Some o => delete o (geoms h)
                      | None => geoms h
                      end;
             feats := <[this := with_geometry f poGeomIn]> (feats h) |}).
Proof.
  intros Hthis Hlive. unfold SetGeometryDirectly.
  rewrite (feature_at_live _ _ _ Hthis), bind_Done.
  rewrite (delete_geometry_live h f Hlive), bind_Done. reflexivity.
Qed.

(** X4: SetGeometryDirectly deletes the shape the record had, if any, and
    stores the very pointer it is handed, whatever that is: it is not
    duplicated, not looked at, and a NULL pointer takes the shape away.
    OGRERR_NONE is reported and nothing else changes. *)
Theorem SetGeometryDirectly_stores_the_pointer h this f (poGeomIn : option loc) :
  feats h !! this = Some f ->
  (forall o, poGeometry f = Some o -> is_Some (geoms h !! o)) ->
  exists h',
    SetGeometryDirectly this poGeomIn h = Done (OGRERR_NONE, h') /\
    GetGeometryRef this h' = Done poGeomIn /\
    feats h' !! this = Some (with_geometry f poGeomIn) /\
    geoms h' = match poGeometry f with
               | Some o => delete o (geoms h)
               | None => geoms h
               end /\
    defns h' = defns h /\
    (forall r : loc, r <> this -> feats h' !! r = feats h !! r).
Proof.
  intros Hthis Hlive. unfold SetGeometryDirectly.
  rewrite (feature_at_live _ _ _ Hthis), bind_Done.
  rewrite (delete_geometry_live h f Hlive), bind_Done.
  eexists. split; [reflexivity|].
  assert (Hnew : forall gs : gmap loc G, feats {| defns := defns h; geoms := gs;
                     feats := <[this := with_geometry f poGeomIn]> (feats h) |} !! this
                 = Some (with_geometry f poGeomIn))
    by (intros gs; apply lookup_insert_eq).
  split; [unfold GetGeometryRef; rewrite (feature_at_live _ _ _ (Hnew _)); reflexivity|].
  split; [apply Hnew|]. do 2 (split; [reflexivity|]).
  intros r Hr. simpl. apply lookup_insert_ne. congruence.
Qed.

(** X5: handing a record its own shape is a hazard in both setters, which
    delete the old shape before they look at the new one.  SetGeometry
    then calls clone through a pointer to the deleted geometry.
    SetGeometryDirectly reports OGRERR_NONE and leaves the record with a
    shape pointer to no live geometry, on which the destructor deletes a
    second time. *)
Theorem shape_setters_on_own_shape h this f (p : loc) (g : G) (d : OGRFeatureDefn) :
  feats h !! this = Some f ->
  poGeometry f = Some p ->
  geoms h !! p = Some g ->
  defns h !! poDefn f = Some d ->
  SetGeometry this (Some p) h = Undefined DanglingPointer /\
  exists h',
    SetGeometryDirectly this (Some p) h = Done (OGRERR_NONE, h') /\
    GetGeometryRef this h' = Done (Some p) /\
    geoms h' !! p = None /\
    delete_OGRFeature this h' = Undefined DanglingPointer.
Proof.
  intros Hthis Hp Hg Hd.
  assert (Hlive : forall o, poGeometry f = Some o -> is_Some (geoms h !! o)).
  { intros o Ho. assert (o = p) by congruence. subst o. eauto. }
  split.
  - unfold SetGeometry. rewrite (feature_at_live _ _ _ Hthis), bind_Done.
    rewrite (delete_geometry_live h f Hlive), bind_Done, Hp.
    cbn [from_option]. rewrite bind_Done, lookup_delete_eq. reflexivity.
  - pose proof (SetGeometryDirectly_eq h this f (Some p) Hthis Hlive) as Hset.
    set (h' := {| defns := defns h;
                  geoms := match poGeometry f with
                           | Some o => delete o (geoms h)
                           | None => geoms h
                           end;
                  feats := <[this := with_geometry f (Some p)]> (feats h) |}) in Hset.
    assert (Hnew : feats h' !! this = Some (with_geometry f (Some p)))
      by apply lookup_insert_eq.
    assert (Hdefns : defns h' = defns h) by reflexivity.
    assert (Hgone : geoms h' !! p = None).
    { unfold h'. cbn [geoms]. rewrite Hp. apply lookup_delete_eq. }
    exists h'. split; [exact Hset|].
    split; [unfold GetGeometryRef; rewrite (feature_at_live _ _ _ Hnew); reflexivity|].
    split; [exact Hgone|].
    unfold delete_OGRFeature. rewrite (feature_at_live _ _ _ Hnew), bind_Done.
    assert (Hd' : defn_at h' (poDefn f) = Done d).
    { unfold defn_at. rewrite Hdefns, Hd. reflexivity. }
    simpl. rewrite Hd', bind_Done. unfold delete_geometry. simpl.
    unfold geometry_at. rewrite Hgone. reflexivity.
Qed.

(** X6: an index outside [0 .. GetFieldCount()-1] fails the assertion in
    every accessor of a live record on a live schema: none of the three
    getters answers with a default, and none of the four setters touches
    the record. *)
Theorem accessors_assert_the_index h this f d iField :
  feats h !! this = Some f ->
  defns h !! poDefn f = Some d ->
  (iField < 0 \/ GetFieldCount d <= iField) ->
  GetFieldAsInteger this iField h = Undefined AssertionFailure /\
  GetFieldAsDouble this iField h = Undefined AssertionFailure /\
  GetFieldAsString this iField h = Undefined AssertionFailure /\
  (forall nValue, SetField_int this iField nValue h = Undefined AssertionFailure) /\
  (forall dfValue, SetField_double this iField dfValue h = Undefined AssertionFailure) /\
  (forall pszValue, SetField_string this iField pszValue h = Undefined AssertionFailure) /\
  (forall puValue, SetField_raw this iField puValue h = Undefined AssertionFailure).
Proof.
  intros Hthis Hd Hrange.
  assert (Hty : field_type h f iField = Undefined AssertionFailure).
  { unfold field_type, defn_at. rewrite Hd. cbn [from_option]. rewrite bind_Done.
    unfold GetFieldDefn.
    replace ((0 <=? iField) && (iField <? GetFieldCount d)) with false; [reflexivity|].
    symmetry. apply andb_false_iff.
    destruct Hrange; [left; apply Z.leb_gt | right; apply Z.ltb_ge]; lia. }
  repeat split; intros;
    unfold GetFieldAsInteger, GetFieldAsDouble, GetFieldAsString,
      SetField_int, SetField_double, SetField_string, SetField_raw;
    rewrite (feature_at_live _ _ _ Hthis), bind_Done, Hty; reflexivity.
Qed.

End ShapeOwnership.

(** ** Integers across the kinds *)

Section IntegerConversions.

Lemma digits2_pos_size (p : positive) : digits2_pos p = Pos.size p.
Proof. induction p; simpl; congruence. Qed.

Lemma iter_xO_pow (k p : positive) : Zpos (Pos.iter xO p k) = Zpos p * 2 ^ Zpos k.
Proof.
  induction k as [|k IH] using Pos.peano_ind.
  - simpl. lia.
  - rewrite Pos.iter_succ, Pos2Z.inj_xO, IH, Pos2Z.inj_succ, Z.pow_succ_r by lia. lia.
Qed.

Lemma digits2_iter_xO (k p : positive) :
  digits2_pos (Pos.iter xO p k) = (digits2_pos p + k)%positive.
Proof.
  induction k as [|k IH] using Pos.peano_ind.
  - simpl. lia.
  - rewrite Pos.iter_succ. simpl. rewrite IH. lia.
Qed.

Lemma size_bound (p : positive) (k : Z) :
  Zpos p < 2 ^ k -> 0 <= k -> Zpos (Pos.size p) <= k.
Proof.
  intros Hp Hk.
  destruct (Z.le_gt_cases (Zpos (Pos.size p)) k) as [|Hgt]; [assumption|].
  exfalso.
  pose proof (Pos.size_le p) as Hle.
  assert (2 ^ Zpos (Pos.size p) <= 2 * Zpos p).
  { rewrite <- Pos2Z.inj_pow. change (2 * Zpos p) with (Zpos (p~0)).
    apply Pos2Z.pos_le_pos, Hle. }
  assert (2 ^ (k + 1) <= 2 ^ Zpos (Pos.size p)) by (apply Z.pow_le_mono_r; lia).
  rewrite Z.pow_add_r in * by lia. lia.
Qed.

Lemma fexp_small (e : Z) :
  -1021 <= e -> fexp Double.prec Double.emax e = e - 53.
Proof. intros He. unfold fexp, emin, Double.prec, Double.emax. lia. Qed.

(** A mantissa of 53 bits is not rounded. *)
Lemma binary_round_aux_exact (s : bool) (m : positive) (e : Z) :
  Zpos (digits2_pos m) = 53 -> -1074 <= e <= 971 ->
  binary_round_aux Double.prec Double.emax s (Zpos m) e loc_Exact = S754_finite s m e.
Proof.
  intros Hd He.
  assert (Hf : fexp Double.prec Double.emax (Zpos (digits2_pos m) + e) - e = 0).
  { rewrite Hd. unfold fexp, emin, Double.prec, Double.emax. lia. }
  unfold binary_round_aux, shr_fexp. cbn [Zdigits2]. rewrite Hf.
  cbn [shr shr_record_of_loc loc_of_shr_record shr_m round_nearest_even Zdigits2].
  rewrite Hf. cbn [shr shr_record_of_loc shr_m].
  replace (e <=? Double.emax - Double.prec) with true; [reflexivity|].
  symmetry. apply Z.leb_le. unfold Double.emax, Double.prec. lia.
Qed.

(** An integer below [2^52] becomes the double with that integer, shifted
    up to 53 bits, as its mantissa. *)
Lemma binary_round_small (s : bool) (p : positive) :
  Zpos p < 2 ^ 52 ->
  exists k : positive,
    binary_round Double.prec Double.emax s p 0 = S754_finite s (Pos.iter xO p k) (Zneg k).
Proof.
  intros Hp.
  assert (Hd : Zpos (digits2_pos p) <= 52).
  { rewrite digits2_pos_size. apply size_bound; [exact Hp | lia]. }
  destruct (53 - Zpos (digits2_pos p)) as [|k|k] eqn:Hk; try lia.
  exists k. unfold binary_round.
  rewrite fexp_small by lia.
  replace (Zpos (digits2_pos p) + 0 - 53) with (Zneg k) by lia.
  unfold shl_align. simpl Z.sub.
  apply binary_round_aux_exact.
  - rewrite digits2_iter_xO. lia.
  - lia.
Qed.

Lemma shiftr_iter_xO (p k : positive) :
  Z.shiftr (Zpos (Pos.iter xO p k)) (Zpos k) = Zpos p.
Proof.
  rewrite iter_xO_pow, Z.shiftr_div_pow2 by lia.
  apply Z.div_mul. apply Z.pow_nonzero; lia.
Qed.

Lemma in_int_bounds (n : Z) : in_int n = true -> - 2 ^ 31 <= n <= 2 ^ 31 - 1.
Proof.
  unfold in_int, INT_MIN, INT_MAX. intros Hin.
  apply andb_true_iff in Hin as [Hlo Hhi].
  apply Z.leb_le in Hlo. apply Z.leb_le in Hhi. lia.
Qed.

(** The conversion of an int to double loses nothing. *)
Lemma of_int_is_integer (n : Z) :
  in_int n = true -> is_integer (Double.of_int n) n.
Proof.
  intros Hin. apply in_int_bounds in Hin.
  unfold Double.of_int, binary_normalize. destruct n as [|p|p].
  - reflexivity.
  - destruct (binary_round_small false p) as (k & ->); [lia|].
    cbn [is_integer cond_Zopp]. rewrite iter_xO_pow.
    change (- Zneg k) with (Zpos k). split; lia.
  - destruct (binary_round_small true p) as (k & ->); [lia|].
    cbn [is_integer cond_Zopp]. rewrite iter_xO_pow.
    change (- Zneg k) with (Zpos k). split; lia.
Qed.

(** Converted to double and back, an int is what it was. *)
Lemma to_int_of_int (n : Z) :
  in_int n = true -> Double.to_int (Double.of_int n) = Done n.
Proof.
  intros Hin. pose proof (in_int_bounds n Hin) as Hb.
  unfold Double.of_int, binary_normalize. destruct n as [|p|p].
  - reflexivity.
  - destruct (binary_round_small false p) as (k & ->); [lia|].
    unfold Double.to_int, Double.integer_part. rewrite shiftr_iter_xO.
    cbn [cond_Zopp]. rewrite Hin. reflexivity.
  - destruct (binary_round_small true p) as (k & ->); [lia|].
    unfold Double.to_int, Double.integer_part. rewrite shiftr_iter_xO.
    cbn [cond_Zopp]. change (- Zpos p) with (Zneg p). rewrite Hin. reflexivity.
Qed.

End IntegerConversions.

(** ** How the calls of SetField compose *)

Section SetFieldComposition.

Context {G : Type}.

Implicit Types (h : heap G) (this : loc) (iField : Z) (f : OGRFeature)
  (ty : OGRFieldType) (u : OGRField.t) (v : field_value).

(** SetField on a well-formed field, all overloads and kinds at once. *)
Lemma SetField_written h this iField f ty u v :
  field_of h this iField f ty u ->
  SetField this iField v h =
    w ← slot_written ty v;
    Done match w with
         | Some u' => stored h this f iField u'
         | None => h
         end.
Proof.
  intros Hf. destruct v as [n|d|s|pu]; unfold SetField.
  - rewrite (SetField_int_eq _ _ _ _ _ _ n Hf). destruct ty; reflexivity.
  - rewrite (SetField_double_eq _ _ _ _ _ _ d Hf).
    destruct ty; try reflexivity. simpl. destruct (Double.to_int d); reflexivity.
  - rewrite (SetField_string_eq _ _ _ _ _ _ s Hf).
    destruct ty; try reflexivity; destruct s as [|c]; try reflexivity.
    simpl. destruct (Libc.atoi c); reflexivity.
  - rewrite (SetField_raw_eq _ _ _ _ _ _ pu Hf).
    destruct ty; try reflexivity; simpl.
    + destruct (OGRField.read_Integer pu); reflexivity.
    + destruct (OGRField.read_Real pu); reflexivity.
    + destruct (OGRField.read_String pu); reflexivity.
Qed.

Lemma slot_written_matches ty v (u' : OGRField.t) :
  slot_written ty v = Done (Some u') -> slot_matches ty u' = true /\ handled ty = true.
Proof.
  destruct ty, v as [n|d|[|c]|pu]; simpl; try discriminate;
    try (intros [= <-]; split; reflexivity).
  - destruct (Double.to_int d); simpl; [intros [= <-]; split; reflexivity | discriminate].
  - destruct (Libc.atoi c); simpl; [intros [= <-]; split; reflexivity | discriminate].
  - destruct (OGRField.read_Integer pu); simpl;
      [intros [= <-]; split; reflexivity | discriminate].
  - destruct (OGRField.read_Real pu); simpl;
      [intros [= <-]; split; reflexivity | discriminate].
  - destruct (OGRField.read_String pu); simpl;
      [intros [= <-]; split; reflexivity | discriminate].
Qed.







End SetFieldComposition.

(** ** What SetField leaves alone, and the invariant it keeps *)

Section SetFieldFrame.

Context {G : Type} `{OGRGeometry G}.

Implicit Types (h : heap G) (this that : loc) (iField : Z) (f : OGRFeature)
  (ty : OGRFieldType) (u : OGRField.t) (v : field_value).

Lemma field_type_Done_index h f iField ty :
  field_type h f iField = Done ty -> 0 <= iField.
Proof.
  unfold field_type. destruct (defn_at h (poDefn f)) as [d|]; [|discriminate].
  rewrite bind_Done. unfold GetFieldDefn.
  destruct (0 <=? iField) eqn:H0; [|discriminate]. intros _. apply Z.leb_le, H0.
Qed.

(** What the typed getters read at an index depends on the schemas, on
    the schema pointer of the record and on the slot of that index. *)
Lemma getters_depend_on_slot h h' this f f' iField :
  feats h !! this = Some f ->
  feats h' !! this = Some f' ->
  defns h' = defns h ->
  poDefn f' = poDefn f ->
  (0 <= iField -> pauFields f' !! Z.to_nat iField = pauFields f !! Z.to_nat iField) ->
  GetFieldAsInteger this iField h' = GetFieldAsInteger this iField h /\
  GetFieldAsDouble this iField h' = GetFieldAsDouble this iField h /\
  GetFieldAsString this iField h' = GetFieldAsString this iField h.
Proof.
  intros Hf Hf' Hd Hp Hs.
  unfold GetFieldAsInteger, GetFieldAsDouble, GetFieldAsString.
  rewrite !(feature_at_live _ _ _ Hf), !(feature_at_live _ _ _ Hf'), !bind_Done.
  assert (Hty : field_type h' f' iField = field_type h f iField).
  { unfold field_type, defn_at. rewrite Hd, Hp. reflexivity. }
  rewrite Hty. destruct (field_type h f iField) as [ty|w] eqn:Hty'; [|auto].
  rewrite !bind_Done. unfold field_slot.
  rewrite (Hs (field_type_Done_index _ _ _ _ Hty')). auto.
Qed.

(** X9: a call of SetField on one field of a record changes nothing that
    can be observed elsewhere: at every other index of the record, and at
    every index of every other record, the three typed getters read what
    they read before, and the identifier and the shape pointer of every
    record are as they were. *)
Theorem SetField_is_not_seen_elsewhere h this iField f ty u v h' :
  field_of h this iField f ty u ->
  SetField this iField v h = Done h' ->
  (forall that j,
     that <> this \/ j <> iField ->
     GetFieldAsInteger that j h' = GetFieldAsInteger that j h /\
     GetFieldAsDouble that j h' = GetFieldAsDouble that j h /\
     GetFieldAsString that j h' = GetFieldAsString that j h) /\
  (forall that,
     GetFID that h' = GetFID that h /\
     GetGeometryRef that h' = GetGeometryRef that h /\
     GetDefnRef that h' = GetDefnRef that h).
Proof.
  intros Hf Hset.
  assert (Hframe : only_slot_changed h h' this iField).
  { destruct (SetField_changes_one_slot h this iField f ty u Hf)
      as (Hint & Hdbl & Hstr & Hraw & _).
    destruct v as [n|d|s|pu]; unfold SetField in Hset.
    - destruct (Hint n) as (h'' & Hn & Hfr). congruence.
    - apply (Hdbl d), Hset.
    - apply (Hstr s), Hset.
    - apply (Hraw pu), Hset. }
  destruct Hframe as (Hdefns & Hgeoms & Hothers & f0 & f1 & H0 & H1 & Hpd & Hfid & Hgeo & _ & Hslots).
  split.
  - intros that j Hwhere.
    destruct (decide (that = this)) as [->|Hne].
    + apply (getters_depend_on_slot h h' this f0 f1 j H0 H1 Hdefns Hpd).
      intros Hj. apply Hslots; [exact Hj|]. destruct Hwhere; congruence.
    + unfold GetFieldAsInteger, GetFieldAsDouble, GetFieldAsString, feature_at.
      rewrite (Hothers that Hne).
      destruct (feats h !! that) as [g|]; [|auto]. cbn [from_option].
      rewrite !bind_Done. unfold field_type, defn_at. rewrite Hdefns. auto.
  - intros that. unfold GetFID, GetGeometryRef, GetDefnRef, feature_at.
    destruct (decide (that = this)) as [->|Hne].
    + rewrite H0, H1. cbn [from_option]. rewrite !bind_Done, Hpd, Hfid, Hgeo. auto.
    + rewrite (Hothers that Hne). auto.
Qed.

Lemma Forall2_matches_insert (fds : list OGRFieldDefn) (us : list OGRField.t)
    (i : nat) (fd : OGRFieldDefn) (u' : OGRField.t) :
  Forall2 (fun fd u => slot_matches (GetType fd) u = true) fds us ->
  fds !! i = Some fd ->
  slot_matches (GetType fd) u' = true ->
  Forall2 (fun fd u => slot_matches (GetType fd) u = true) fds (<[i := u']> us).
Proof.
  intros Hall Hfd Hm.
  rewrite <- (list_insert_id fds i fd Hfd). apply Forall2_insert; assumption.
Qed.

(** In a heap whose records are all well formed, a call that gets as far
    as the kind of the field is a call on a well-formed field. *)
Lemma records_ok_field_of h this f iField ty :
  records_ok h ->
  feats h !! this = Some f ->
  field_type h f iField = Done ty ->
  exists u, field_of h this iField f ty u.
Proof.
  intros Hok Hthis Hty. destruct (Hok this f Hthis) as ((d & Hd & Hall) & _).
  unfold field_type, defn_at in Hty. rewrite Hd in Hty. cbn [from_option] in Hty.
  rewrite bind_Done in Hty.
  destruct (GetFieldDefn d iField) as [fd|] eqn:Hfd; [|discriminate].
  injection Hty as <-.
  assert (Hlk : papoFieldDefn d !! Z.to_nat iField = Some fd).
  { unfold GetFieldDefn in Hfd.
    destruct ((0 <=? iField) && (iField <? GetFieldCount d)); [exact Hfd | discriminate]. }
  destruct (Forall2_lookup_l _ _ _ _ _ Hall Hlk) as (u & Hu & Hm).
  exists u. split; [exact Hthis|]. split; [eauto|]. split; assumption.
Qed.

Lemma SetField_Done_field_of h this iField v h' :
  records_ok h ->
  SetField this iField v h = Done h' ->
  exists f ty u, field_of h this iField f ty u.
Proof.
  intros Hok Hset.
  assert (Hpre : exists f ty, feats h !! this = Some f /\ field_type h f iField = Done ty).
  { destruct (feats h !! this) as [f|] eqn:Hthis.
    - exists f. destruct (field_type h f iField) as [ty|w] eqn:Hty; [eauto|].
      exfalso.
      destruct v; unfold SetField, SetField_int, SetField_double, SetField_string,
        SetField_raw in Hset;
        rewrite (feature_at_live _ _ _ Hthis), bind_Done, Hty in Hset;
        discriminate Hset.
    - exfalso.
      destruct v; unfold SetField, SetField_int, SetField_double, SetField_string,
        SetField_raw, feature_at in Hset;
        rewrite Hthis in Hset; discriminate Hset. }
  destruct Hpre as (f & ty & Hthis & Hty).
  destruct (records_ok_field_of h this f iField ty Hok Hthis Hty) as [u Hf]. eauto.
Qed.

Lemma stored_records_ok h this iField f ty u (u' : OGRField.t) :
  records_ok h ->
  field_of h this iField f ty u ->
  slot_matches ty u' = true ->
  records_ok (stored h this f iField u').
Proof.
  intros Hok Hf Hm p g Hp.
  destruct (decide (p = this)) as [->|Hne].
  - unfold stored, with_feature in Hp. simpl in Hp. rewrite lookup_insert_eq in Hp.
    injection Hp as <-.
    destruct (Hok this f (proj1 Hf)) as ((d & Hd & Hall) & Hlive).
    destruct (field_of_index h this iField f ty u d Hf Hd) as (fd & Hlk & _ & Hty).
    split; [|exact Hlive].
    exists d. split; [exact Hd|]. simpl.
    apply (Forall2_matches_insert _ _ _ fd); [exact Hall | exact Hlk |].
    rewrite Hty. exact Hm.
  - unfold stored, with_feature in Hp. simpl in Hp.
    rewrite lookup_insert_ne in Hp by congruence.
    apply (feature_ok_same h); [reflexivity | reflexivity | apply (Hok p g Hp)].
Qed.

(** X10: the invariant of the data model survives every call that
    returns.  If every live record has as many slots as its schema has
    fields, each slot holding the member its field's kind names, and a
    live shape if it has one, then this is so again after the
    constructor, after SetFID and after each overload of SetField,
    whatever it is handed. *)
Theorem records_stay_well_formed h :
  records_ok h ->
  (forall poDefnIn this h',
     new_OGRFeature poDefnIn h = Done (this, h') -> records_ok h') /\
  (forall this nFIDIn e h',
     SetFID this nFIDIn h = Done (e, h') -> records_ok h') /\
  (forall this iField v h',
     SetField this iField v h = Done h' -> records_ok h').
Proof.
  intros Hok. split; [|split].
  - intros poDefnIn this h' Hnew.
    destruct (defns h !! poDefnIn) as [d|] eqn:Hd.
    + destruct (new_OGRFeature_adds h poDefnIn d Hd)
        as (this0 & h0 & f0 & Hnew0 & Hlive & Hdefns & Hgeoms & Hothers & Hok0).
      assert (this0 = this /\ h0 = h') as [-> ->] by (split; congruence).
      intros p g Hp. destruct (decide (p = this)) as [->|Hne].
      * assert (g = f0) by congruence. subst g. exact Hok0.
      * rewrite (Hothers p Hne) in Hp.
        destruct (Hok p g Hp) as ((dg & Hdg & Hall) & Hshape).
        split; [|intros s Hs; rewrite Hgeoms; apply Hshape, Hs].
        rewrite Hdefns. destruct (decide (poDefn g = poDefnIn)) as [Heq|Hneq].
        -- exists (Reference d). rewrite Heq, lookup_insert_eq.
           split; [reflexivity|]. simpl.
           assert (dg = d) by congruence. subst dg. exact Hall.
        -- exists dg. rewrite lookup_insert_ne by congruence. split; assumption.
    + unfold new_OGRFeature, defn_at in Hnew. rewrite Hd in Hnew. discriminate Hnew.
  - intros this nFIDIn e h' Hset. unfold SetFID, feature_at in Hset.
    destruct (feats h !! this) as [f|] eqn:Hthis; [|discriminate Hset].
    cbn [from_option] in Hset. rewrite bind_Done in Hset. injection Hset as _ <-.
    intros p g Hp. unfold with_feature in Hp. simpl in Hp.
    destruct (decide (p = this)) as [->|Hne].
    + rewrite lookup_insert_eq in Hp. injection Hp as <-.
      apply (feature_ok_same h); [reflexivity | reflexivity |].
      exact (Hok this f Hthis).
    + rewrite lookup_insert_ne in Hp by congruence.
      apply (feature_ok_same h); [reflexivity | reflexivity | apply (Hok p g Hp)].
  - intros this iField v h' Hset.
    destruct (SetField_Done_field_of h this iField v h' Hok Hset) as (f & ty & u & Hf).
    rewrite (SetField_written _ _ _ _ _ _ v Hf) in Hset.
    destruct (slot_written ty v) as [[u'|]|] eqn:Hw; try discriminate;
      injection Hset as <-; [|exact Hok].
    apply (stored_records_ok h this iField f ty u u' Hok Hf).
    apply (slot_written_matches ty v u' Hw).
Qed.

End SetFieldFrame.

(** ** Values across the kinds *)

Section CrossKind.

Context {G : Type}.

Implicit Types (h : heap G) (this that : loc) (iField : Z) (f : OGRFeature)
  (ty : OGRFieldType) (u : OGRField.t).

Lemma append_empty (s : string) : (s ++ EmptyString)%string = s.
Proof.
  induction s as [|a s IH]; [reflexivity|].
  change (String a (s ++ EmptyString)%string = String a s). f_equal. exact IH.
Qed.

Lemma atoi_of_sprintf_d (n : Z) : in_int n = true -> Libc.atoi (Libc.sprintf_d n) = Done n.
Proof.
  intros Hin. rewrite <- (append_empty (Libc.sprintf_d n)).
  apply atoi_sprintf_d; [exact Hin | reflexivity].
Qed.

(** X11: an int set through SetField( int, int ) on a field of any of the
    kinds Integer, Real and String is read back unchanged by
    GetFieldAsInteger: the conversion to double and the conversion to
    decimal text and back lose nothing. *)
Theorem int_survives_every_kind h this iField f ty u (n : Z) :
  field_of h this iField f ty u ->
  handled ty = true ->
  in_int n = true ->
  exists h',
    SetField_int this iField n h = Done h' /\
    GetFieldAsInteger this iField h' = Done n.
Proof.
  intros Hf Hty Hin. rewrite (SetField_int_eq _ _ _ _ _ _ n Hf).
  destruct ty; try discriminate Hty; eexists; (split; [reflexivity|]).
  - assert (Hf' := field_of_stored _ _ _ _ _ _ (OGRField.Integer n) Hf eq_refl).
    rewrite (GetFieldAsInteger_eq _ _ _ _ _ _ Hf'). reflexivity.
  - assert (Hf' := field_of_stored _ _ _ _ _ _
                     (OGRField.Real (Double.of_int n)) Hf eq_refl).
    rewrite (GetFieldAsInteger_eq _ _ _ _ _ _ Hf'). simpl.
    apply to_int_of_int, Hin.
  - assert (Hf' := field_of_stored _ _ _ _ _ _
                     (OGRField.String (CStr (Libc.sprintf_d n))) Hf eq_refl).
    rewrite (GetFieldAsInteger_eq _ _ _ _ _ _ Hf'). simpl.
    apply atoi_of_sprintf_d, Hin.
Qed.

(** X12: GetFieldAsDouble goes by the declared kind of the field.  A Real
    field gives the stored double as it is; an Integer field the double
    that is exactly the stored int; a String field 0.0 when the string is
    unset or no number starts it, and otherwise what atof makes of it;
    every other kind gives 0.0. *)
Theorem GetFieldAsDouble_by_kind h this iField f ty u :
  field_of h this iField f ty u ->
  match ty with
  | OFTReal =>
      exists d, OGRField.read_Real u = Done d /\
                GetFieldAsDouble this iField h = Done d
  | OFTInteger =>
      exists n, OGRField.read_Integer u = Done n /\
                GetFieldAsDouble this iField h = Done (Double.of_int n) /\
                (in_int n = true -> is_integer (Double.of_int n) n)
  | OFTString =>
      exists s, OGRField.read_String u = Done s /\
        match s with
        | CNull => GetFieldAsDouble this iField h = Done Double.zero
        | CStr c =>
            GetFieldAsDouble this iField h = Done (Double.atof c) /\
            (numeric c = false -> GetFieldAsDouble this iField h = Done Double.zero)
        end
  | _ => GetFieldAsDouble this iField h = Done Double.zero
  end.
Proof.
  intros Hf. rewrite (GetFieldAsDouble_eq _ _ _ _ _ _ Hf).
  pose proof (proj2 (proj2 (proj2 Hf))) as Hm.
  destruct ty; try reflexivity.
  - destruct (slot_matches_Integer u Hm) as [n Hn]. exists n. rewrite Hn.
    split; [reflexivity|]. split; [reflexivity|]. apply of_int_is_integer.
  - destruct (slot_matches_Real u Hm) as [d Hd]. exists d. rewrite Hd. auto.
  - destruct (slot_matches_String u Hm) as [s Hs]. exists s. rewrite Hs.
    split; [reflexivity|]. rewrite bind_Done.
    destruct s as [|c]; [reflexivity|]. split; [reflexivity|].
    intros Hc. rewrite (atof_non_numeric c Hc). reflexivity.
Qed.

(** X13: an Integer field reads as text as the decimal notation of its
    value.  That text, also when followed by a tail that does not start
    with a digit, set on an Integer field through the string overload
    stores the value again: SetField( int, const char * ) takes the
    leading integer and ignores what follows. *)
Theorem Integer_field_as_text h this iField f u (n : Z) :
  field_of h this iField f OFTInteger u ->
  OGRField.read_Integer u = Done n ->
  in_int n = true ->
  GetFieldAsString this iField h = Done (CStr (Libc.sprintf_d n)) /\
  forall that j f' u' (rest : string),
    field_of h that j f' OFTInteger u' ->
    starts_with_digit rest = false ->
    exists h',
      SetField_string that j (CStr (Libc.sprintf_d n ++ rest)) h = Done h' /\
      GetFieldAsInteger that j h' = Done n.
Proof.
  intros Hf Hu Hin. split.
  - rewrite (GetFieldAsString_eq _ _ _ _ _ _ Hf), Hu. reflexivity.
  - intros that j f' u' rest Hf' Hrest.
    rewrite (SetField_string_eq _ _ _ _ _ _ _ Hf').
    rewrite (atoi_sprintf_d n rest Hin Hrest), bind_Done.
    eexists. split; [reflexivity|].
    assert (Hf'' := field_of_stored _ _ _ _ _ _ (OGRField.Integer n) Hf' eq_refl).
    rewrite (GetFieldAsInteger_eq _ _ _ _ _ _ Hf''). reflexivity.
Qed.

Lemma to_int_fault (d : Double.double) (w : fault) :
  Double.to_int d = Undefined w -> w = Unrepresentable.
Proof.
  destruct d as [s|s| |s m e]; simpl; try congruence.
  destruct (in_int (cond_Zopp s (Double.integer_part m e))); congruence.
Qed.

(** X14: a double set through SetField( int, double ) on an Integer field
    is stored truncated toward zero, 2.9 as 2 and -2.9 as -2, and read
    back so.  When the truncated value is no int, and for infinities and
    NaN, the call is undefined. *)
Theorem SetField_double_truncates h this iField f u (dfValue : Double.double) :
  field_of h this iField f OFTInteger u ->
  (forall z, truncated_toward_zero dfValue z -> in_int z = true ->
     exists h',
       SetField_double this iField dfValue h = Done h' /\
       GetFieldAsInteger this iField h' = Done z) /\
  ((forall z, truncated_toward_zero dfValue z -> in_int z = false) ->
   SetField_double this iField dfValue h = Undefined Unrepresentable).
Proof.
  intros Hf. rewrite (SetField_double_eq _ _ _ _ _ _ dfValue Hf). split.
  - intros z Hz Hin. rewrite (to_int_truncates dfValue z Hz Hin), bind_Done.
    eexists. split; [reflexivity|].
    assert (Hf' := field_of_stored _ _ _ _ _ _ (OGRField.Integer z) Hf eq_refl).
    rewrite (GetFieldAsInteger_eq _ _ _ _ _ _ Hf'). reflexivity.
  - intros Hnone. destruct (Double.to_int dfValue) as [z|w] eqn:Hto.
    + destruct (to_int_Done_truncated dfValue z Hto) as [Hz Hin].
      rewrite (Hnone z Hz) in Hin. discriminate Hin.
    + rewrite (to_int_fault dfValue w Hto). reflexivity.
Qed.

End CrossKind.

(** ** The destructor *)

Section Destructor.

Context {G : Type} `{OGRGeometry G}.

Implicit Types (h : heap G) (this : loc) (iField : Z) (f : OGRFeature)
  (d : OGRFeatureDefn).

(** On slots that follow the schema the loop of the destructor runs to
    its end. *)
Lemma destroy_fields_runs h f d :
  defns h !! poDefn f = Some d ->
  Forall2 (fun fd u => slot_matches (GetType fd) u = true)
          (papoFieldDefn d) (pauFields f) ->
  forall (n i : nat),
    (i + n = length (papoFieldDefn d))%nat ->
    destroy_fields h f (Z.of_nat i) n = Done tt.
Proof.
  intros Hd Hall. induction n as [|n IH]; intros i Hin; [reflexivity|].
  assert (Hi : (i < length (papoFieldDefn d))%nat) by lia.
  destruct (lookup_lt_is_Some_2 _ _ Hi) as [fd Hfd].
  destruct (Forall2_lookup_l _ _ _ _ _ Hall Hfd) as (u & Hu & Hm).
  cbn [destroy_fields]. unfold defn_at. rewrite Hd. cbn [from_option].
  rewrite bind_Done, (GetFieldDefn_lookup d i fd Hfd). cbn [from_option].
  rewrite bind_Done.
  assert (Hslot : (if GetType fd == OFTString
                   then u0 ← field_slot f (Z.of_nat i);
                        _ ← OGRField.read_String u0; mret tt
                   else mret tt) = Done tt).
  { destruct (GetType fd) eqn:Hty; try reflexivity.
    unfold field_slot. rewrite Nat2Z.id, Hu. cbn [from_option]. rewrite bind_Done.
    destruct (slot_matches_String u Hm) as [s ->]. reflexivity. }
  rewrite Hslot, bind_Done.
  replace (Z.of_nat i + 1) with (Z.of_nat (S i)) by lia. apply IH. lia.
Qed.

Lemma Dereference_Reference d : Dereference (Reference d) = d.
Proof.
  destruct d as [n name fds]. unfold Dereference, Reference. simpl.
  f_equal. lia.
Qed.

(** X15: a record constructed and destroyed at once leaves no trace: the
    heap is what it was, the reference count of the schema included. *)
Theorem delete_undoes_new h (poDefnIn : loc) d :
  defns h !! poDefnIn = Some d ->
  exists this h1,
    new_OGRFeature poDefnIn h = Done (this, h1) /\
    delete_OGRFeature this h1 = Done h.
Proof.
  intros Hd. rewrite (new_OGRFeature_eq h poDefnIn d Hd).
  eexists _, _. split; [reflexivity|].
  set (this := fresh (dom (feats h))).
  set (f0 := {| poDefn := poDefnIn; nFID := OGRNullFID; poGeometry := None;
                pauFields := replicate (length (papoFieldDefn d)) OGRField.Zeroed |}).
  assert (Hfree : feats h !! this = None) by (apply not_elem_of_dom, is_fresh).
  set (h1 := {| defns := <[poDefnIn := Reference d]> (defns h);
                geoms := geoms h;
                feats := <[this := f0]> (feats h) |}).
  assert (Hthis : feats h1 !! this = Some f0) by apply lookup_insert_eq.
  assert (Hd1 : defn_at h1 (poDefn f0) = Done (Reference d)).
  { unfold defn_at. simpl. rewrite lookup_insert_eq. reflexivity. }
  unfold delete_OGRFeature. rewrite (feature_at_live _ _ _ Hthis), bind_Done.
  rewrite Hd1, bind_Done.
  change (delete_geometry h1 f0) with (Done (geoms h)). rewrite bind_Done.
  change (defns h1) with (<[poDefnIn := Reference d]> (defns h)).
  change (poDefn f0) with poDefnIn.
  rewrite insert_insert_eq, Dereference_Reference, (insert_id _ _ _ Hd).
  unfold defn_at at 1. cbn [defns from_option]. rewrite Hd. cbn [from_option].
  rewrite bind_Done.
  pose proof (destroy_fields_runs
                {| defns := defns h; geoms := geoms h; feats := feats h1 |} f0 d
                Hd (zeroed_slots_match (papoFieldDefn d))
                (length (papoFieldDefn d)) 0%nat eq_refl) as Hrun.
  change (Z.of_nat 0) with 0 in Hrun.
  unfold GetFieldCount. rewrite Nat2Z.id, Hrun, bind_Done.
  change (feats h1) with (<[this := f0]> (feats h)).
  rewrite (delete_insert_id _ _ _ Hfree).
  destruct h. reflexivity.
Qed.

(** X16: destroying a well-formed record takes the record and its shape
    out of the heap and takes one holder off its schema, which stays
    alive whatever its count becomes; nothing else changes.  Where no
    geometry is the shape of two records, the records that remain are
    well formed. *)
Theorem delete_OGRFeature_effect h this f :
  feats h !! this = Some f ->
  feature_ok h f ->
  exists h' d,
    delete_OGRFeature this h = Done h' /\
    feats h' = delete this (feats h) /\
    geoms h' = match poGeometry f with
               | Some p => delete p (geoms h)
               | None => geoms h
               end /\
    defns h !! poDefn f = Some d /\
    defns h' = <[poDefn f := Dereference d]> (defns h) /\
    nRefCount (Dereference d) = nRefCount d - 1 /\
    (records_ok h -> shapes_owned_once h -> records_ok h').
Proof.
  intros Hthis ((d & Hd & Hall) & Hlive).
  eexists _, d. split.
  { assert (Hd0 : defn_at h (poDefn f) = Done d).
    { unfold defn_at. rewrite Hd. reflexivity. }
    unfold delete_OGRFeature. rewrite (feature_at_live _ _ _ Hthis), bind_Done.
    rewrite Hd0, bind_Done.
    rewrite (delete_geometry_live h f Hlive), bind_Done.
    unfold defn_at. simpl. rewrite lookup_insert_eq. cbn [from_option].
    rewrite bind_Done.
    pose proof (destroy_fields_runs
                  {| defns := <[poDefn f := Dereference d]> (defns h);
                     geoms := match poGeometry f with
                              | Some o => delete o (geoms h)
                              | None => geoms h
                              end;
                     feats := feats h |} f (Dereference d)
                  (lookup_insert_eq _ _ _) Hall
                  (length (papoFieldDefn d)) 0%nat eq_refl) as Hrun.
    change (Z.of_nat 0) with 0 in Hrun.
    unfold GetFieldCount. simpl. rewrite Nat2Z.id, Hrun. reflexivity. }
  simpl. do 2 (split; [reflexivity|]). split; [exact Hd|].
  do 2 (split; [reflexivity|]).
  intros Hok Hown p g Hp. cbn [feats] in Hp.
  apply lookup_delete_Some in Hp as [Hne Hp].
  destruct (Hok p g Hp) as ((dg & Hdg & Hallg) & Hliveg).
  unfold feature_ok. cbn [defns geoms]. split.
  - destruct (decide (poDefn g = poDefn f)) as [Heq|Hneq].
    + exists (Dereference d). rewrite Heq, lookup_insert_eq. split; [reflexivity|].
      assert (dg = d) by congruence. subst dg. exact Hallg.
    + exists dg. rewrite lookup_insert_ne by congruence. split; assumption.
  - intros s Hs. destruct (poGeometry f) as [o|] eqn:Ho; [|apply Hliveg, Hs].
    rewrite lookup_delete_ne; [apply Hliveg, Hs|].
    intros <-. apply Hne. apply (Hown this p o f g); assumption.
Qed.

End Destructor.

(** ** Clone and the rest of the heap *)

Section CloneEffect.

Context {G : Type} `{OGRGeometryLaws G}.

Implicit Types (h : heap G) (this poNew : loc) (iField : Z) (f fn : OGRFeature)
  (d : OGRFeatureDefn).

Lemma SetField_raw_length h poNew iField (pu : OGRField.t) h1 fn :
  SetField_raw poNew iField pu h = Done h1 ->
  feats h !! poNew = Some fn ->
  exists fn1, feats h1 !! poNew = Some fn1 /\
              length (pauFields fn1) = length (pauFields fn).
Proof.
  intros Hset Hfn. unfold SetField_raw in Hset.
  rewrite (feature_at_live _ _ _ Hfn), bind_Done in Hset.
  destruct (field_type h fn iField) as [ty|]; [|discriminate Hset].
  rewrite bind_Done in Hset.
  assert (Hassign : forall u' h2, assign_slot h poNew fn iField u' = Done h2 ->
            exists fn1, feats h2 !! poNew = Some fn1 /\
                        length (pauFields fn1) = length (pauFields fn)).
  { intros u' h2. unfold assign_slot.
    destruct (field_slot fn iField); [|discriminate]. rewrite bind_Done.
    intros [= <-]. eexists. split; [apply lookup_insert_eq|]. apply length_insert. }
  destruct ty; simpl in Hset; try (injection Hset as <-; eauto).
  - destruct (OGRField.read_Integer pu); [|discriminate Hset]. eapply Hassign, Hset.
  - destruct (OGRField.read_Real pu); [|discriminate Hset]. eapply Hassign, Hset.
  - destruct (OGRField.read_String pu); [|discriminate Hset].
    rewrite bind_Done in Hset. unfold replace_string in Hset.
    destruct (field_slot fn iField) as [old|]; [|discriminate Hset].
    rewrite bind_Done in Hset.
    destruct (OGRField.read_String old); [|discriminate Hset]. eapply Hassign, Hset.
Qed.

Lemma Clone_fields_length this poNew (n : nat) :
  forall (i : Z) h h' fn,
    Clone_fields this poNew i n h = Done h' ->
    feats h !! poNew = Some fn ->
    exists fn', feats h' !! poNew = Some fn' /\
                length (pauFields fn') = length (pauFields fn).
Proof.
  induction n as [|n IH]; intros i h h' fn Hrun Hfn.
  - injection Hrun as <-. eauto.
  - cbn [Clone_fields] in Hrun.
    destruct (feature_at h this) as [f|]; [|discriminate Hrun]. rewrite bind_Done in Hrun.
    destruct (field_slot f i) as [u|]; [|discriminate Hrun]. rewrite bind_Done in Hrun.
    destruct (SetField_raw poNew i u h) as [h1|] eqn:Hset; [|discriminate Hrun].
    rewrite bind_Done in Hrun.
    destruct (SetField_raw_length h poNew i u h1 fn Hset Hfn) as (fn1 & Hfn1 & Hlen1).
    destruct (IH (i + 1) h1 h' fn1 Hrun Hfn1) as (fn' & Hfn' & Hlen').
    exists fn'. split; [exact Hfn' | congruence].
Qed.

(** Clone of a well-formed record with a shape, step by step. *)
Lemma Clone_run h this f d (p : loc) (g : G) :
  feats h !! this = Some f ->
  defns h !! poDefn f = Some d ->
  Forall2 (fun fd u => slot_matches (GetType fd) u = true)
          (papoFieldDefn d) (pauFields f) ->
  poGeometry f = Some p ->
  geoms h !! p = Some g ->
  exists h' f',
    Clone this h = Done (fresh (dom (feats h)), h') /\
    defns h' = <[poDefn f := Reference d]> (defns h) /\
    geoms h' = <[fresh (dom (geoms h)) := OGRGeometry_clone g]> (geoms h) /\
    (forall r : loc, r <> fresh (dom (feats h)) -> feats h' !! r = feats h !! r) /\
    feats h' !! fresh (dom (feats h)) = Some f' /\
    poDefn f' = poDefn f /\
    nFID f' = OGRNullFID /\
    poGeometry f' = Some (fresh (dom (geoms h))) /\
    Forall2 (fun fd u => slot_matches (GetType fd) u = true)
            (papoFieldDefn d) (pauFields f').
Proof.
  intros Hthis Hd Hall Hp Hg.
  set (poNew := fresh (dom (feats h))).
  set (q := fresh (dom (geoms h))).
  assert (Hfresh : feats h !! poNew = None) by (apply not_elem_of_dom, is_fresh).
  assert (Hne : this <> poNew) by congruence.
  set (f0 := {| poDefn := poDefn f; nFID := OGRNullFID; poGeometry := None;
                pauFields := replicate (length (papoFieldDefn d)) OGRField.Zeroed |}).
  set (h1 := {| defns := <[poDefn f := Reference d]> (defns h);
                geoms := geoms h;
                feats := <[poNew := f0]> (feats h) |}).
  set (h2 := {| defns := defns h1;
                geoms := <[q := OGRGeometry_clone g]> (geoms h1);
                feats := <[poNew := with_geometry f0 (Some q)]> (feats h1) |}).
  assert (Hclone : Clone this h = Clone_fields this poNew 0 (length (papoFieldDefn d)) h2
                                  ≫= (fun h3 => Done (poNew, h3))).
  { unfold Clone. rewrite (feature_at_live _ _ _ Hthis), bind_Done.
    rewrite (new_OGRFeature_eq h (poDefn f) d Hd), bind_Done.
    fold poNew f0 h1. cbv beta iota. rewrite Hp.
    rewrite (SetGeometry_eq h1 poNew f0 p g);
      [|apply lookup_insert_eq | reflexivity | exact Hg].
    rewrite bind_Done. change (fresh (dom (geoms h1))) with q. fold h2.
    cbv beta iota.
    assert (Hd2 : defn_at h2 (poDefn f) = Done (Reference d)).
    { unfold defn_at. simpl. rewrite lookup_insert_eq. reflexivity. }
    rewrite Hd2, bind_Done. unfold GetFieldCount. simpl. rewrite Nat2Z.id.
    reflexivity. }
  assert (Hnew2 : feats h2 !! poNew = Some (with_geometry f0 (Some q)))
    by apply lookup_insert_eq.
  destruct (Clone_fields_copies this poNew f (Reference d) Hne Hall
              (length (papoFieldDefn d)) 0%nat h2 (with_geometry f0 (Some q)))
    as (h' & f' & Hrun & Hdefns & Hgeoms & Hothers & Hnew & Hpd & Hfid & Hgeo & _ & Hcopied).
  { reflexivity. }
  { simpl. rewrite !lookup_insert_ne by congruence. exact Hthis. }
  { exact Hnew2. }
  { reflexivity. }
  { simpl. apply lookup_insert_eq. }
  { simpl. apply length_replicate. }
  { intros j _ Hj. simpl. apply lookup_replicate_2. exact Hj. }
  change (Z.of_nat 0) with 0 in Hrun.
  destruct (Clone_fields_length this poNew _ 0 h2 h' _ Hrun Hnew2) as (f'' & Hnew' & Hlen).
  assert (f'' = f') by congruence. subst f''.
  exists h', f'. rewrite Hclone, Hrun, bind_Done.
  split; [reflexivity|]. split; [exact Hdefns|]. split; [exact Hgeoms|].
  split.
  { intros r Hr. rewrite (Hothers r Hr). simpl.
    rewrite !lookup_insert_ne by congruence. reflexivity. }
  split; [exact Hnew|]. split; [exact Hpd|]. split; [exact Hfid|].
  split; [exact Hgeo|].
  apply Forall2_same_length_lookup_2.
  - rewrite Hlen. simpl. rewrite length_replicate. reflexivity.
  - intros j fd u' Hfd Hu'.
    destruct (Forall2_lookup_l _ _ _ _ _ Hall Hfd) as (u & Hu & Hm).
    rewrite (Hcopied j fd u (Nat.le_0_l j) Hfd Hu) in Hu'. injection Hu' as <-.
    apply copy_of_matches.
Qed.

(** X17: Clone of a record with a shape, in a heap of well-formed
    records each owning its shape alone, adds one record and one geometry
    at addresses that were free, gives the schema one holder more and
    changes nothing else; the records of the new heap, the clone among
    them, are again well formed and own their shapes alone. *)
Theorem Clone_heap_effect h this f (p : loc) :
  records_ok h ->
  shapes_owned_once h ->
  feats h !! this = Some f ->
  poGeometry f = Some p ->
  exists (poNew q : loc) h' d (g : G),
    Clone this h = Done (poNew, h') /\
    feats h !! poNew = None /\
    geoms h !! q = None /\
    defns h !! poDefn f = Some d /\
    geoms h !! p = Some g /\
    defns h' = <[poDefn f := Reference d]> (defns h) /\
    geoms h' = <[q := OGRGeometry_clone g]> (geoms h) /\
    (forall r : loc, r <> poNew -> feats h' !! r = feats h !! r) /\
    is_Some (feats h' !! poNew) /\
    records_ok h' /\
    shapes_owned_once h'.
Proof.
  intros Hok Hown Hthis Hp.
  destruct (Hok this f Hthis) as ((d & Hd & Hall) & Hlive).
  destruct (Hlive p Hp) as [g Hg].
  destruct (Clone_run h this f d p g Hthis Hd Hall Hp Hg)
    as (h' & f' & Hclone & Hdefns & Hgeoms & Hothers & Hnew & Hpd & Hfid & Hgeo & Hall').
  set (poNew := fresh (dom (feats h))) in *.
  set (q := fresh (dom (geoms h))) in *.
  assert (Hfresh : feats h !! poNew = None) by (apply not_elem_of_dom, is_fresh).
  assert (Hq : geoms h !! q = None) by (apply not_elem_of_dom, is_fresh).
  exists poNew, q, h', d, g.
  do 8 (split; [first [assumption | reflexivity]|]).
  split; [eauto|]. split.
  - intros r gr Hr. unfold feature_ok. rewrite Hdefns, Hgeoms.
    destruct (decide (r = poNew)) as [->|Hne].
    + assert (gr = f') by congruence. subst gr. split.
      * exists (Reference d). rewrite Hpd, lookup_insert_eq. split; [reflexivity|].
        exact Hall'.
      * intros s Hs. assert (s = q) by congruence. subst s.
        rewrite lookup_insert_eq. eauto.
    + rewrite (Hothers r Hne) in Hr.
      destruct (Hok r gr Hr) as ((dg & Hdg & Hallg) & Hliveg). split.
      * destruct (decide (poDefn gr = poDefn f)) as [Heq|Hneq].
        -- exists (Reference d). rewrite Heq, lookup_insert_eq. split; [reflexivity|].
           assert (dg = d) by congruence. subst dg. exact Hallg.
        -- exists dg. rewrite lookup_insert_ne by congruence. split; assumption.
      * intros s Hs. destruct (Hliveg s Hs) as [gs Hgs].
        rewrite lookup_insert_ne by congruence. eauto.
  - intros r1 r2 s g1 g2 H1 H2 Hs1 Hs2.
    assert (Hold : forall r gr, r <> poNew -> feats h' !! r = Some gr ->
              poGeometry gr = Some s -> s <> q).
    { intros r gr Hne Hr Hs. rewrite (Hothers r Hne) in Hr.
      destruct (Hok r gr Hr) as (_ & Hliveg). destruct (Hliveg s Hs) as [gs Hgs].
      congruence. }
    destruct (decide (r1 = poNew)) as [->|Hne1], (decide (r2 = poNew)) as [->|Hne2].
    + reflexivity.
    + exfalso. assert (g1 = f') by congruence. subst g1.
      apply (Hold r2 g2 Hne2 H2 Hs2). congruence.
    + exfalso. assert (g2 = f') by congruence. subst g2.
      apply (Hold r1 g1 Hne1 H1 Hs1). congruence.
    + rewrite (Hothers r1 Hne1) in H1. rewrite (Hothers r2 Hne2) in H2.
      apply (Hown r1 r2 s g1 g2); assumption.
Qed.

(** X18: a clone is Equal to its original exactly when the original has
    no identifier: the clone starts with the null identifier, is bound to
    the same schema instance, and its shape is a duplicate of the
    original's. *)
Theorem Clone_Equal_to_original h this f (p : loc) :
  feats h !! this = Some f ->
  feature_ok h f ->
  poGeometry f = Some p ->
  exists poNew h',
    Clone this h = Done (poNew, h') /\
    Equal this poNew h' = Done (nFID f =? OGRNullFID).
Proof.
  intros Hthis Hok Hp.
  destruct (Clone_of_record_with_shape h this f p Hthis Hok Hp)
    as (poNew & h' & f' & q & g & g' & Hclone & Hfree & Hthis' & Hnew & Hpd & Hfid &
        Hgeo & Hqp & Hg & Hg' & Hq' & Heq & _).
  exists poNew, h'. split; [exact Hclone|].
  assert (Hne : this <> poNew) by congruence.
  rewrite (Equal_distinct h' this poNew f f' Hne Hthis' Hnew).
  rewrite Hfid, Hpd, Pos.eqb_refl, Hp, Hgeo. unfold geometry_at.
  rewrite Hg', Hq'. cbn [from_option]. rewrite !bind_Done, Heq.
  destruct (nFID f =? OGRNullFID); reflexivity.
Qed.

End CloneEffect.

(** ** The pointer GetFieldAsString returns *)

Section ReturnedPointer.

Context {G : Type} `{OGRGeometry G}.

Implicit Types (h : heap G) (this that : loc) (iField : Z) (f : OGRFeature)
  (ty : OGRFieldType) (u : OGRField.t) (szTempBuffer : string).

(** X19: the pointer GetFieldAsString returns leads, when the call
    returns, to the text of the field: to the string the slot owns for a
    String field that is set, to the static buffer, just written, for an
    Integer or Real field, and to an empty literal otherwise.  Whatever
    the buffer held before does not matter. *)
Theorem GetFieldAsString_points_to_the_text h this iField szTempBuffer :
  ('(r, b) ← GetFieldAsString_ref this iField szTempBuffer h; string_at r b h)
  = GetFieldAsString this iField h.
Proof.
  unfold GetFieldAsString_ref, GetFieldAsString.
  destruct (feature_at h this) as [f|] eqn:Hthis; [|reflexivity]. rewrite !bind_Done.
  destruct (field_type h f iField) as [ty|]; [|reflexivity]. rewrite !bind_Done.
  destruct (field_slot f iField) as [u|] eqn:Hu; [|destruct ty; reflexivity].
  destruct ty; try reflexivity; simpl.
  - destruct (OGRField.read_Integer u); reflexivity.
  - destruct (OGRField.read_Real u); reflexivity.
  - destruct (OGRField.read_String u) as [[|c]|] eqn:Hs; try reflexivity.
    simpl. rewrite Hthis. simpl. rewrite Hu. simpl. exact Hs.
Qed.

(** X20: the texts of Integer and Real fields share one buffer.  Two
    calls of GetFieldAsString on such fields, of the same record or of
    two, return the same pointer, and after the second call that pointer
    leads to the text of the second field: the text of the first is gone.
    A String field that is set is returned by a pointer into the record
    and leaves the buffer alone. *)
Theorem numeric_texts_share_a_buffer h this that (i j : Z) f g tyi tyj ui uj szTempBuffer :
  field_of h this i f tyi ui ->
  field_of h that j g tyj uj ->
  numeric_kind tyi = true ->
  numeric_kind tyj = true ->
  exists (first second : string),
    GetFieldAsString this i h = Done (CStr first) /\
    GetFieldAsString that j h = Done (CStr second) /\
    GetFieldAsString_ref this i szTempBuffer h = Done (TempBuffer, first) /\
    GetFieldAsString_ref that j first h = Done (TempBuffer, second) /\
    string_at TempBuffer second h = Done (CStr second) /\
    (forall k fk (c : string),
       field_of h this k fk OFTString (OGRField.String (CStr c)) ->
       GetFieldAsString_ref this k second h = Done (FieldString this k, second)).
Proof.
  intros Hi Hj Hki Hkj.
  assert (Hnum : forall (this0 : loc) (k : Z) f0 ty u buf,
            field_of h this0 k f0 ty u -> numeric_kind ty = true ->
            exists text,
              GetFieldAsString this0 k h = Done (CStr text) /\
              GetFieldAsString_ref this0 k buf h = Done (TempBuffer, text)).
  { intros this0 k f0 ty u buf Hf Hk.
    rewrite (GetFieldAsString_eq _ _ _ _ _ _ Hf). unfold GetFieldAsString_ref.
    enter Hf. pose proof (proj2 (proj2 (proj2 Hf))) as Hm.
    destruct ty; try discriminate Hk.
    - destruct (slot_matches_Integer u Hm) as [n ->]. eexists. split; reflexivity.
    - destruct (slot_matches_Real u Hm) as [d ->]. eexists. split; reflexivity. }
  destruct (Hnum this i f tyi ui szTempBuffer Hi Hki) as (first & Hget1 & Href1).
  destruct (Hnum that j g tyj uj first Hj Hkj) as (second & Hget2 & Href2).
  exists first, second. do 5 (split; [first [assumption | reflexivity]|]).
  intros k fk c Hk. unfold GetFieldAsString_ref. enter Hk. reflexivity.
Qed.

End ReturnedPointer.

(** ** Equal, by identity *)

Section EqualIdentity.

Context {G : Type} `{OGRGeometry G}.

Implicit Types (h : heap G) (a b : loc) (fa fb : OGRFeature).


End EqualIdentity.

(** ** DumpReadable *)

Section DumpFacts.

Context {G : Type} `{OGRGeometry G} `{OGRGeometryDump G}.

Variable GetFieldTypeName : OGRFieldType -> string.

Implicit Types (h : heap G) (this : loc) (iField : Z) (f : OGRFeature)
  (ty : OGRFieldType) (u : OGRField.t) (d : OGRFeatureDefn).

Lemma GetFieldAsString_text h this iField f ty u :
  field_of h this iField f ty u ->
  GetFieldAsString this iField h = Done (CStr (field_text ty u)).
Proof.
  intros Hf. rewrite (GetFieldAsString_eq _ _ _ _ _ _ Hf).
  pose proof (proj2 (proj2 (proj2 Hf))) as Hm.
  destruct ty, u as [|n|x|[|c]]; simpl in Hm; try discriminate; reflexivity.
Qed.

Lemma DumpReadable_fields_run h this f d :
  feats h !! this = Some f ->
  defns h !! poDefn f = Some d ->
  Forall2 (fun fd u => slot_matches (GetType fd) u = true)
          (papoFieldDefn d) (pauFields f) ->
  forall (n i : nat) (fpOut : string),
    (i + n = length (papoFieldDefn d))%nat ->
    DumpReadable_fields GetFieldTypeName this (Z.of_nat i) n h fpOut =
      Done (fold_left String.append (drop i (field_lines GetFieldTypeName d f)) fpOut).
Proof.
  intros Hthis Hd Hall. induction n as [|n IH]; intros i fpOut Hin.
  - rewrite drop_ge; [reflexivity|].
    unfold field_lines. rewrite length_zip_with.
    rewrite <- (Forall2_length _ _ _ Hall). lia.
  - assert (Hi : (i < length (papoFieldDefn d))%nat) by lia.
    destruct (lookup_lt_is_Some_2 _ _ Hi) as [fd Hfd].
    destruct (Forall2_lookup_l _ _ _ _ _ Hall Hfd) as (u & Hu & Hm).
    assert (Hf : field_of h this (Z.of_nat i) f (GetType fd) u).
    { split; [exact Hthis|]. split.
      - exists d, fd. split; [exact Hd|].
        split; [apply GetFieldDefn_lookup, Hfd | reflexivity].
      - rewrite Nat2Z.id. split; assumption. }
    assert (Hline : field_lines GetFieldTypeName d f !! i
                    = Some (field_line (GetNameRef fd) (GetFieldTypeName (GetType fd))
                                       (field_text (GetType fd) u))).
    { unfold field_lines. rewrite lookup_zip_with, Hfd, Hu. reflexivity. }
    rewrite (drop_S _ _ _ Hline). cbn [fold_left DumpReadable_fields].
    rewrite (feature_at_live _ _ _ Hthis), bind_Done.
    unfold defn_at. rewrite Hd. cbn [from_option]. rewrite bind_Done.
    rewrite (GetFieldDefn_lookup d i fd Hfd). cbn [from_option]. rewrite bind_Done.
    rewrite (GetFieldAsString_text _ _ _ _ _ _ Hf), !bind_Done.
    replace (Z.of_nat i + 1) with (Z.of_nat (S i)) by lia.
    apply IH. lia.
Qed.

(** X22: on a well-formed record DumpReadable runs to its end and
    appends to the stream, in this order: the line of the schema name and
    the identifier; for each field of the schema, in order, a line of its
    name, the name of its kind and its text; what the shape, if there is
    one, dumps with a prefix of two blanks; a line feed. *)
Theorem DumpReadable_writes h this f (fpOut : string) :
  feats h !! this = Some f ->
  feature_ok h f ->
  exists d,
    defns h !! poDefn f = Some d /\
    let head :=
      (fpOut ++ "OGRFeature(" ++ GetName d ++ "):" ++ Libc.sprintf_d (nFID f) ++ newline)%string in
    let body := fold_left String.append (field_lines GetFieldTypeName d f) head in
    length (field_lines GetFieldTypeName d f) = length (papoFieldDefn d) /\
    match poGeometry f with
    | Some p =>
        exists g, geoms h !! p = Some g /\
          DumpReadable GetFieldTypeName this fpOut h =
            Done ((body ++ OGRGeometry_dumpReadable g "  ") ++ newline)%string
    | None =>
        DumpReadable GetFieldTypeName this fpOut h = Done (body ++ newline)%string
    end.
Proof.
  intros Hthis ((d & Hd & Hall) & Hlive). exists d. split; [exact Hd|].
  cbv zeta. split.
  { unfold field_lines. rewrite length_zip_with, <- (Forall2_length _ _ _ Hall). lia. }
  assert (Hrun : forall out,
            DumpReadable_fields GetFieldTypeName this 0
              (Z.to_nat (GetFieldCount d)) h out
            = Done (fold_left String.append (field_lines GetFieldTypeName d f) out)).
  { intros out. unfold GetFieldCount. rewrite Nat2Z.id.
    apply (DumpReadable_fields_run h this f d Hthis Hd Hall _ 0%nat out eq_refl). }
  unfold DumpReadable. rewrite (feature_at_live _ _ _ Hthis), bind_Done.
  unfold defn_at. rewrite Hd. cbn [from_option]. rewrite bind_Done. cbv zeta.
  rewrite Hrun, bind_Done.
  destruct (poGeometry f) as [p|]; [|reflexivity].
  destruct (Hlive p eq_refl) as [g Hg]. exists g. split; [exact Hg|].
  unfold geometry_at. rewrite Hg. reflexivity.
Qed.

End DumpFacts.

(** ** The further theorems at the records of the scenario *)

Ltac concrete_feature_ok :=
  split;
  [ eexists; split; [reflexivity | simpl; repeat constructor]
  | let s := fresh "s" in
    let Hs := fresh "Hs" in
    intros s Hs;
    first [ discriminate Hs | injection Hs as <-; eexists; reflexivity ] ].

Ltac lots_cases Hp :=
  unfold lots in Hp; cbn [feats] in Hp;
  repeat (apply lookup_insert_Some in Hp as [[<- <-]|[_ Hp]]; [|]);
  [ .. | apply lookup_singleton_Some in Hp as [<- <-] ].

Lemma lots_ok : records_ok lots.
Proof.
  intros p f Hp. lots_cases Hp; concrete_feature_ok.
Defined.

Lemma lots_shapes : shapes_owned_once lots.
Proof.
  intros p q s f g Hp Hq Hsf Hsg.
  lots_cases Hp; try discriminate Hsf;
    lots_cases Hq; try discriminate Hsg; reflexivity.
Defined.

Lemma new_OGRFeature_state_witness :
  exists this h',
    new_OGRFeature 1%positive lot_heap = Done (this, h') /\
    GetFID this h' = Done OGRNullFID /\
    GetGeometryRef this h' = Done None /\
    (nRefCount <$> defns h' !! 1%positive) = Some 1.
Proof.
  destruct (new_OGRFeature_state lot_heap 1%positive lot_defn eq_refl)
    as (this & h' & f & Hnew & _ & Hlive & _ & Hfid & Hgeo & _ & _ & Hdefns & _).
  exists this, h'. split; [exact Hnew|].
  unfold GetFID, GetGeometryRef. rewrite (feature_at_live _ _ _ Hlive), !bind_Done.
  rewrite Hfid, Hgeo, Hdefns. repeat split.
Defined.

Lemma SetFID_then_GetFID_witness :
  exists h',
    SetFID 1%positive (-7) lots = Done (OGRERR_NONE, h') /\
    GetFID 1%positive h' = Done (-7) /\
    GetFieldAsInteger 1%positive 1 h' = Done 5.
Proof.
  destruct (SetFID_then_GetFID lots 1%positive lot_a (-7) eq_refl)
    as (h' & Hset & Hget & _ & _ & _ & _ & Hsame).
  exists h'. split; [exact Hset|]. split; [exact Hget|].
  rewrite (proj1 (Hsame 1)). reflexivity.
Defined.

Lemma SetGeometry_stores_a_duplicate_witness :
  exists (q : loc) h',
    SetGeometry 3%positive (Some 2%positive) lots_with_spare = Done (OGRERR_NONE, h') /\
    GetGeometryRef 3%positive h' = Done (Some q) /\
    q <> 2%positive /\
    geoms h' !! q = Some {| getX := 5; getY := 6 |} /\
    geoms h' !! 2%positive = Some {| getX := 5; getY := 6 |}.
Proof.
  destruct (SetGeometry_stores_a_duplicate lots_with_spare 3%positive lot_c 2%positive
              {| getX := 5; getY := 6 |} eq_refl)
    as (q & h' & Hset & Hqp & Hlive & Hq & Hp & _).
  - intros o [= <-]. eexists. reflexivity.
  - reflexivity.
  - discriminate.
  - exists q, h'. split; [exact Hset|].
    split; [unfold GetGeometryRef; rewrite (feature_at_live _ _ _ Hlive); reflexivity|].
    split; [exact Hqp|]. split; [exact Hq | exact Hp].
Defined.

Lemma lot_c_shape_live :
  forall o, poGeometry lot_c = Some o -> is_Some (geoms lots !! o).
Proof. intros o [= <-]. eexists. reflexivity. Defined.

Lemma SetGeometryDirectly_stores_the_pointer_witness :
  exists h',
    SetGeometryDirectly 3%positive None lots = Done (OGRERR_NONE, h') /\
    GetGeometryRef 3%positive h' = Done None /\
    geoms h' !! 1%positive = None.
Proof.
  destruct (SetGeometryDirectly_stores_the_pointer lots 3%positive lot_c None
              eq_refl lot_c_shape_live)
    as (h' & Hset & Hget & _ & Hgeoms & _).
  exists h'. split; [exact Hset|]. split; [exact Hget|].
  rewrite Hgeoms. reflexivity.
Defined.

Lemma shape_setters_on_own_shape_witness :
  SetGeometry 3%positive (Some 1%positive) lots = Undefined DanglingPointer /\
  exists h',
    SetGeometryDirectly 3%positive (Some 1%positive) lots = Done (OGRERR_NONE, h') /\
    delete_OGRFeature 3%positive h' = Undefined DanglingPointer.
Proof.
  destruct (shape_setters_on_own_shape lots 3%positive lot_c 1%positive
              {| getX := 3; getY := 4 |} _ eq_refl eq_refl eq_refl eq_refl)
    as (Hcopy & h' & Hset & _ & _ & Hdel).
  split; [exact Hcopy|]. exists h'. split; [exact Hset | exact Hdel].
Defined.

Lemma accessors_assert_the_index_witness :
  GetFieldAsInteger 1%positive 3 lots = Undefined AssertionFailure /\
  GetFieldAsString 1%positive (-1) lots = Undefined AssertionFailure /\
  SetField_int 1%positive 3 9 lots = Undefined AssertionFailure.
Proof.
  destruct (accessors_assert_the_index lots 1%positive lot_a _ 3 eq_refl eq_refl)
    as (Hint & _ & _ & Hset & _); [right; vm_compute; discriminate|].
  destruct (accessors_assert_the_index lots 1%positive lot_a _ (-1) eq_refl eq_refl)
    as (_ & _ & Hstr & _); [left; reflexivity|].
  split; [exact Hint|]. split; [exact Hstr | exact (Hset 9)].
Defined.



Lemma SetField_is_not_seen_elsewhere_witness :
  exists h',
    SetField 1%positive 1 (DoubleValue (Double.atof "9.5")) lots = Done h' /\
    GetFieldAsInteger 1%positive 1 h' = Done 9 /\
    GetFieldAsString 1%positive 0 h' = Done (CStr "Lot A") /\
    GetFieldAsInteger 2%positive 1 h' = Done 7 /\
    GetFID 1%positive h' = Done 100.
Proof.
  assert (Hset : exists h', SetField 1%positive 1 (DoubleValue (Double.atof "9.5")) lots
                            = Done h')
    by (eexists; vm_compute; reflexivity).
  destruct Hset as [h' Hset].
  destruct (SetField_is_not_seen_elsewhere lots 1%positive 1 lot_a _ _ _ h'
              lots_field_1 Hset) as (Hfields & Hrest).
  exists h'. split; [exact Hset|].
  split; [vm_compute in Hset; injection Hset as <-; vm_compute; reflexivity|].
  split; [rewrite (proj2 (proj2 (Hfields 1%positive 0 ltac:(right; discriminate))));
          reflexivity|].
  split; [rewrite (proj1 (Hfields 2%positive 1 ltac:(left; discriminate))); reflexivity|].
  rewrite (proj1 (Hrest 1%positive)). reflexivity.
Defined.

Lemma records_stay_well_formed_witness :
  (exists h', SetField 1%positive 0 (IntValue 3) lots = Done h' /\ records_ok h') /\
  (exists this h', new_OGRFeature 2%positive lots = Done (this, h') /\ records_ok h').
Proof.
  destruct (records_stay_well_formed lots lots_ok) as (Hnew & _ & Hset).
  split.
  - eexists. split; [vm_compute; reflexivity|].
    apply (Hset 1%positive 0 (IntValue 3)). vm_compute. reflexivity.
  - eexists _, _. split; [vm_compute; reflexivity|].
    eapply (Hnew 2%positive). vm_compute. reflexivity.
Defined.

Lemma int_survives_every_kind_witness :
  (exists h', SetField_int 1%positive 2 7 lots = Done h' /\
              GetFieldAsInteger 1%positive 2 h' = Done 7) /\
  (exists h', SetField_int 1%positive 0 (-2147483648) lots = Done h' /\
              GetFieldAsInteger 1%positive 0 h' = Done (-2147483648)).
Proof.
  split.
  - exact (int_survives_every_kind lots 1%positive 2 lot_a _ _ 7
             lots_field_2 eq_refl eq_refl).
  - exact (int_survives_every_kind lots 1%positive 0 lot_a _ _ (-2147483648)
             lots_field_0 eq_refl eq_refl).
Defined.

Lemma GetFieldAsDouble_by_kind_witness :
  (exists n, OGRField.read_Integer (OGRField.Integer 5) = Done n /\
             GetFieldAsDouble 1%positive 1 lots = Done (Double.of_int n) /\
             (in_int n = true -> is_integer (Double.of_int n) n)) /\
  GetFieldAsDouble 5%positive 0 lots = Done Double.zero.
Proof.
  split.
  - exact (GetFieldAsDouble_by_kind lots 1%positive 1 lot_a _ _ lots_field_1).
  - exact (GetFieldAsDouble_by_kind lots 5%positive 0 codes_e _ _ lots_field_codes).
Defined.

Lemma lots_field_b1 :
  field_of lots 2%positive 1 lot_b OFTInteger (OGRField.Integer 7).
Proof.
  split; [reflexivity|]. split; [|split; reflexivity].
  eexists _, _. split; [reflexivity|]. split; reflexivity.
Defined.

Lemma Integer_field_as_text_witness :
  GetFieldAsString 1%positive 1 lots = Done (CStr "5") /\
  exists h',
    SetField_string 2%positive 1 (CStr "5 acres") lots = Done h' /\
    GetFieldAsInteger 2%positive 1 h' = Done 5.
Proof.
  destruct (Integer_field_as_text lots 1%positive 1 lot_a _ 5
              lots_field_1 eq_refl eq_refl) as [Htext Hback].
  split; [exact Htext|].
  exact (Hback 2%positive 1 lot_b _ " acres"%string lots_field_b1 eq_refl).
Defined.

Lemma SetField_double_truncates_witness :
  exists h',
    SetField_double 1%positive 1 (Double.atof "-2.75") lots = Done h' /\
    GetFieldAsInteger 1%positive 1 h' = Done (-2).
Proof.
  apply (proj1 (SetField_double_truncates lots 1%positive 1 lot_a _
                  (Double.atof "-2.75") lots_field_1)).
  - apply (to_int_Done_truncated (Double.atof "-2.75") (-2)). reflexivity.
  - reflexivity.
Defined.

Lemma delete_undoes_new_witness :
  exists this h1,
    new_OGRFeature 1%positive lot_heap = Done (this, h1) /\
    delete_OGRFeature this h1 = Done lot_heap.
Proof.
  exact (delete_undoes_new lot_heap 1%positive lot_defn eq_refl).
Defined.

Lemma delete_OGRFeature_effect_witness :
  exists h',
    delete_OGRFeature 3%positive lots = Done h' /\
    feats h' !! 3%positive = None /\
    geoms h' !! 1%positive = None /\
    (nRefCount <$> defns h' !! 1%positive) = Some 4 /\
    records_ok h'.
Proof.
  destruct (delete_OGRFeature_effect lots 3%positive lot_c eq_refl lot_c_ok)
    as (h' & d & Hdel & Hfeats & Hgeoms & Hd & Hdefns & _ & Hok).
  exists h'. split; [exact Hdel|].
  split; [rewrite Hfeats; reflexivity|].
  split; [rewrite Hgeoms; reflexivity|].
  split; [|exact (Hok lots_ok lots_shapes)].
  rewrite Hdefns. injection Hd as <-. reflexivity.
Defined.

Lemma Clone_heap_effect_witness :
  exists (poNew : loc) h',
    Clone 3%positive lots = Done (poNew, h') /\
    feats lots !! poNew = None /\
    is_Some (feats h' !! poNew) /\
    records_ok h' /\
    shapes_owned_once h'.
Proof.
  destruct (Clone_heap_effect lots 3%positive lot_c 1%positive
              lots_ok lots_shapes eq_refl eq_refl)
    as (poNew & q & h' & d & g & Hclone & Hfree & _ & _ & _ & _ & _ & _ & Hnew & Hok & Hown).
  exists poNew, h'.
  split; [exact Hclone|]. split; [exact Hfree|]. split; [exact Hnew|].
  split; [exact Hok | exact Hown].
Defined.

Lemma Clone_Equal_to_original_witness :
  exists poNew h',
    Clone 3%positive lots = Done (poNew, h') /\
    Equal 3%positive poNew h' = Done FALSE.
Proof.
  exact (Clone_Equal_to_original lots 3%positive lot_c 1%positive
           eq_refl lot_c_ok eq_refl).
Defined.

Lemma numeric_texts_share_a_buffer_witness :
  GetFieldAsString_ref 1%positive 1 "stale"%string lots = Done (TempBuffer, "5"%string) /\
  GetFieldAsString_ref 1%positive 2 "5"%string lots = Done (TempBuffer, "12.5"%string) /\
  string_at TempBuffer "12.5"%string lots = Done (CStr "12.5") /\
  GetFieldAsString_ref 1%positive 0 "12.5"%string lots
    = Done (FieldString 1%positive 0, "12.5"%string).
Proof.
  destruct (numeric_texts_share_a_buffer lots 1%positive 1%positive 1 2 lot_a lot_a
              _ _ _ _ "stale"%string lots_field_1 lots_field_2 eq_refl eq_refl)
    as (first & second & H1 & H2 & Hr1 & Hr2 & Hat & Hstr).
  vm_compute in H1. injection H1 as <-.
  vm_compute in H2. injection H2 as <-.
  split; [exact Hr1|]. split; [exact Hr2|]. split; [exact Hat|].
  exact (Hstr 0 lot_a "Lot A"%string lots_field_0).
Defined.


Lemma DumpReadable_writes_witness :
  DumpReadable kind_name 3%positive EmptyString lots =
    Done ("OGRFeature(lots):100" ++ newline ++
          "  NAME (String) = Lot A" ++ newline ++
          "  COUNT (Integer) = 5" ++ newline ++
          "  AREA (Real) = 12.5" ++ newline ++
          "  POINT (3 4)" ++ newline ++
          newline)%string.
Proof.
  destruct (DumpReadable_writes kind_name lots 3%positive lot_c EmptyString eq_refl lot_c_ok)
    as (d & Hd & _ & g & Hg & Hdump).
  injection Hd as <-. injection Hg as <-. exact Hdump.
Defined.
